(** * OPFS device for the Emscripten file system: a shallow embedding

    Source: [src/bind/ffmpeg/opfs-device.js].  The file defines one entry
    point, [Module["registerOpfsFile"]], which allocates a device number,
    registers five stream operations ([open], [close], [read], [write],
    [llseek]) closed over an [accessHandle], and binds a device node at a
    path of the hosting file system [FS].

    JavaScript numbers that hold offsets, sizes and counters are modelled
    as [Z]; functions that may throw return a completion (normal or throw)
    together with the state they leave behind. *)

From Stdlib Require Import ZArith Lia List String Ascii.
From Stdlib.Strings Require Import Byte.
From stdpp Require Import base option list gmap strings.
Import ListNotations.

Local Open Scope Z_scope.

(** ** Completions and the state-and-exception monad *)

(** The exception values that can reach this code: errno errors raised by
    the hosting file system, and the language's own type and reference
    errors, and the storage handle's DOM exceptions. *)
Inductive JSError : Type :=
  | ErrnoError (errno : Z)
  | TypeError (msg : string)
  | ReferenceError (name : string)
  | DOMException (name : string).

Inductive Completion (A : Type) : Type :=
  | Normal (a : A)
  | Throw (e : JSError).
Arguments Normal {A} a.
Arguments Throw {A} e.

(** A computation over a mutable state [Σ]: it ends normally with a value
    or abruptly with a thrown error, and in both cases leaves a state. *)
Definition JS (Σ A : Type) : Type := Σ -> Completion A * Σ.

#[global] Instance JS_ret {Σ} : MRet (JS Σ) :=
  fun A (a : A) σ => (Normal a, σ).

#[global] Instance JS_bind {Σ} : MBind (JS Σ) :=
  fun A B (k : A -> JS Σ B) (c : JS Σ A) σ =>
    match c σ with
    | (Normal a, σ') => k a σ'
    | (Throw e, σ') => (Throw e, σ')
    end.

Definition throw {Σ A} (e : JSError) : JS Σ A := fun σ => (Throw e, σ).

(** [try { c } catch (e) { h e }] *)
Definition try_catch {Σ A} (c : JS Σ A) (h : JSError -> JS Σ A) : JS Σ A :=
  fun σ =>
    match c σ with
    | (Normal a, σ') => (Normal a, σ')
    | (Throw e, σ') => h e σ'
    end.

Definition gets {Σ A} (f : Σ -> A) : JS Σ A := fun σ => (Normal (f σ), σ).
Definition modify {Σ} (f : Σ -> Σ) : JS Σ unit := fun σ => (Normal tt, f σ).

Definition raises {A} (r : Completion A) : Prop := exists e, r = Throw e.

(** ** Typed-array views *)

(** A [Uint8Array]: a window of [byteLength] bytes starting at
    [byteOffset] in the linear memory it views. *)
Record Uint8Array : Type := mkView { byteOffset : Z; byteLength : Z }.

(** Relative index resolution of [%TypedArray%.prototype.subarray]:
    negative indices count from the end, and both ends are clamped to the
    source view. *)
Definition relative_index (rel len : Z) : Z :=
  if rel <? 0 then Z.max (len + rel) 0 else Z.min rel len.

Definition subarray (buffer : Uint8Array) (begin end_ : Z) : Uint8Array :=
  let beginIndex := relative_index begin (byteLength buffer) in
  let endIndex := relative_index end_ (byteLength buffer) in
  {| byteOffset := byteOffset buffer + beginIndex;
     byteLength := Z.max (endIndex - beginIndex) 0 |}.

(** ** The storage handle and the state a device operation can reach *)

(** What the storage handle's methods can touch: the linear memory behind
    the views they are given, and the backing store itself (of a type [S]
    chosen by the backend). *)
Record IO (S : Type) : Type := mkIO { HEAPU8 : list byte; store : S }.
Arguments mkIO {S} _ _.
Arguments HEAPU8 {S} _.
Arguments store {S} _.

(** The methods of [accessHandle].  [ah_read view at] and
    [ah_write view at] stand for [accessHandle.read(view, {at})] and
    [accessHandle.write(view, {at})]; [ah_flush] and [ah_close] are the
    handle's [flush()] and [close()], which belong to its owner.  Every
    method may throw. *)
Record SyncAccessHandle (S : Type) : Type := mkHandle {
  ah_read : Uint8Array -> Z -> JS (IO S) Z;
  ah_write : Uint8Array -> Z -> JS (IO S) Z;
  ah_getSize : JS (IO S) Z;
  ah_flush : JS (IO S) unit;
  ah_close : JS (IO S) unit
}.
Arguments ah_read {S} _ _ _ _.
Arguments ah_write {S} _ _ _ _.
Arguments ah_getSize {S} _ _.
Arguments ah_flush {S} _ _.
Arguments ah_close {S} _ _.

(** The [stream] object the hosting layer hands to every operation.  The
    operations below only ever look at its [position]. *)
Record OpenStream : Type := mkStream { fd : Z; position : Z }.

(** State of one device operation: the [stream] object its first argument
    refers to, and what the handle can reach. *)
Record DeviceState (S : Type) : Type :=
  mkDev { stream : OpenStream; io : IO S }.
Arguments mkDev {S} _ _.
Arguments stream {S} _.
Arguments io {S} _.

(** Calling a method of the handle from inside a device operation: the
    stream object is out of the method's reach. *)
Definition call_handle {S A} (m : JS (IO S) A) : JS (DeviceState S) A :=
  fun d => let '(r, i) := m (io d) in (r, mkDev (stream d) i).

(** ** The five stream operations (lines 28-80) *)

Section StreamOps.
Context {S : Type}.
(** The handle captured by the closures. *)
Variable accessHandle : SyncAccessHandle S.

Definition open : JS (DeviceState S) Z := mret 0.

Definition close : JS (DeviceState S) Z := mret 0.

Definition read (buffer : Uint8Array) (offset length position : Z)
  : JS (DeviceState S) Z :=
  bytesRead ← call_handle
    (ah_read accessHandle (subarray buffer offset (offset + length)) position);
  mret bytesRead.

Definition write (buffer : Uint8Array) (offset length position : Z)
  : JS (DeviceState S) Z :=
  bytesWritten ← call_handle
    (ah_write accessHandle (subarray buffer offset (offset + length)) position);
  mret bytesWritten.

Definition llseek (offset whence : Z) : JS (DeviceState S) Z :=
  position ← gets (fun d => position (stream d));
  if whence =? 0 then mret offset
  else if whence =? 1 then mret (position + offset)
  else if whence =? 2 then
    size ← call_handle (ah_getSize accessHandle);
    mret (size + offset)
  else mret position.
End StreamOps.

(** The callback table passed to [FS.registerDevice]. *)
Record stream_ops (S : Type) : Type := mkOps {
  ops_open : JS (DeviceState S) Z;
  ops_close : JS (DeviceState S) Z;
  ops_read : Uint8Array -> Z -> Z -> Z -> JS (DeviceState S) Z;
  ops_write : Uint8Array -> Z -> Z -> Z -> JS (DeviceState S) Z;
  ops_llseek : Z -> Z -> JS (DeviceState S) Z
}.
Arguments mkOps {S} _ _ _ _ _.
Arguments ops_open {S} _ _.
Arguments ops_close {S} _ _.
Arguments ops_read {S} _ _ _ _ _ _.
Arguments ops_write {S} _ _ _ _ _ _.
Arguments ops_llseek {S} _ _ _ _.

Definition opfs_stream_ops {S} (accessHandle : SyncAccessHandle S) : stream_ops S :=
  mkOps (open) (close) (read accessHandle) (write accessHandle)
        (llseek accessHandle).

(** ** Strings and arrays of strings *)

(** The values [path] may hold. *)
Inductive JSValue : Type :=
  | VUndefined
  | VNumber (n : Z)
  | VString (s : string).

(** [s.split(sep)] for a one-character separator: never empty, one more
    piece than there are separators. *)
Fixpoint str_split (sep : ascii) (s : string) : list string :=
  match s with
  | EmptyString => [EmptyString]
  | String c rest =>
      if Ascii.eqb c sep then EmptyString :: str_split sep rest
      else match str_split sep rest with
           | [] => [String c EmptyString]
           | piece :: pieces => String c piece :: pieces
           end
  end.

(** [path.split('/')]: only a string has the method. *)
Definition split_method {Σ} (v : JSValue) (sep : ascii) : JS Σ (list string) :=
  match v with
  | VString s => mret (str_split sep s)
  | VUndefined => throw (TypeError "Cannot read properties of undefined")
  | VNumber _ => throw (TypeError "path.split is not a function")
  end.

(** [parts.pop()]: the last element (if any) and the array it leaves. *)
Definition arr_pop (parts : list string) : option string * list string :=
  (last parts, removelast parts).

(** [parts.join(sep)] *)
Fixpoint arr_join (sep : string) (parts : list string) : string :=
  match parts with
  | [] => EmptyString
  | x :: rest =>
      match rest with
      | [] => x
      | _ :: _ => x +:+ sep +:+ arr_join sep rest
      end
  end.

(** [a || b] on strings: the empty string is falsy. *)
Definition str_or (a b : string) : string :=
  match a with EmptyString => b | _ => a end.

(** Lines 87-89: the directory part of [path]. *)
Definition dirPath_of (path : string) : string :=
  let parts := str_split "/" path in
  let '(fileName, parts) := arr_pop parts in
  str_or (arr_join "/" parts) "/".

(** ** The runtime around [registerOpfsFile] *)

(** One [console.error] call: its message and the error object logged
    after it, if any. *)
Record LogLine : Type := mkLog { log_msg : string; log_err : option JSError }.

(** The globals the function reaches: the property
    [Module["_opfs_device_minor"]] ([None] when it was never set), the
    global [FS] ([None] when it is undefined) whose state has some type
    [T], and the error console. *)
Record World (T : Type) : Type := mkWorld {
  opfs_device_minor : option Z;
  FS : option T;
  console : list LogLine
}.
Arguments mkWorld {T} _ _ _.
Arguments opfs_device_minor {T} _.
Arguments FS {T} _.
Arguments console {T} _.

(** The four entry points of the hosting file system the function calls.
    The file system is not part of this repository: it is a parameter, with
    a state type [T] and a device-number type [D] of its own, and each
    entry point may throw. *)
Record HostFS (T D S : Type) : Type := mkFS {
  FS_makedev : Z -> Z -> JS T D;
  FS_registerDevice : D -> stream_ops S -> JS T unit;
  FS_mkdir : string -> JS T unit;
  FS_mkdev : JSValue -> D -> JS T unit
}.
Arguments FS_makedev {T D S} _ _ _ _.
Arguments FS_registerDevice {T D S} _ _ _ _.
Arguments FS_mkdir {T D S} _ _ _.
Arguments FS_mkdev {T D S} _ _ _ _.

Section Register.
Context {T D S : Type}.
Variable fs : HostFS T D S.

(** [typeof x === 'undefined'] *)
Definition is_undefined {A} (x : option A) : bool :=
  match x with None => true | Some _ => false end.

(** A call [FS.m(...)]: evaluating [FS] when the global is undefined is
    a reference error; otherwise the method runs on the file system. *)
Definition call_FS {A} (m : JS T A) : JS (World T) A :=
  fun w =>
    match FS w with
    | None => (Throw (ReferenceError "FS"), w)
    | Some t =>
        let '(r, t') := m t in
        (r, mkWorld (opfs_device_minor w) (Some t') (console w))
    end.

Definition console_error (msg : string) (e : option JSError)
  : JS (World T) unit :=
  modify (fun w =>
    mkWorld (opfs_device_minor w) (FS w) (console w ++ [mkLog msg e])).

(** [!Module["_opfs_device_minor"]]: undefined and 0 are falsy. *)
Definition minor_unset (w : World T) : bool :=
  match opfs_device_minor w with
  | None => true
  | Some n => n =? 0
  end.

Definition set_minor (n : Z) (w : World T) : World T :=
  mkWorld (Some n) (FS w) (console w).

(** [++Module["_opfs_device_minor"]].  The property is a number by the
    time this runs (line 22 has just made it so). *)
Definition pre_increment_minor : JS (World T) Z :=
  fun w =>
    let n := default 0 (opfs_device_minor w) + 1 in
    (Normal n, set_minor n w).

(** Lines 16-99, the body of the outer [try]. *)
Definition register_body (path : JSValue) (accessHandle : SyncAccessHandle S)
  : JS (World T) bool :=
  let major := 80 in
  unset ← gets minor_unset;
  (if unset : bool then modify (set_minor 0) else mret tt);;
  minor ← pre_increment_minor;
  device ← call_FS (FS_makedev fs major minor);
  call_FS (FS_registerDevice fs device (opfs_stream_ops accessHandle));;
  parts ← split_method path "/";
  let '(fileName, parts) := arr_pop parts in
  let dirPath := str_or (arr_join "/" parts) "/" in
  try_catch (call_FS (FS_mkdir fs dirPath)) (fun e => mret tt);;
  call_FS (FS_mkdev fs path device);;
  mret true.

(** [Module["registerOpfsFile"]], lines 9-105. *)
Definition registerOpfsFile (path : JSValue) (accessHandle : SyncAccessHandle S)
  : JS (World T) bool :=
  fs_undefined ← gets (fun w => is_undefined (FS w));
  if fs_undefined : bool then
    console_error "FS not initialized." None;;
    mret false
  else
    try_catch (register_body path accessHandle)
      (fun e =>
         console_error "Failed to register OPFS device:" (Some e);;
         mret false).

(** A sequence of calls, each with its own path and handle, in order. *)
Fixpoint register_all (calls : list (JSValue * SyncAccessHandle S))
    (w : World T) : list (Completion bool) * World T :=
  match calls with
  | [] => ([], w)
  | (path, accessHandle) :: rest =>
      let '(r, w') := registerOpfsFile path accessHandle w in
      let '(rs, w'') := register_all rest w' in
      (r :: rs, w'')
  end.
End Register.

(** ** Reference collaborators *)

(** Copy [src] over [dst] from index [at_] on; [dst] is first padded with
    zero bytes up to [at_] and grows if the copy runs past its end. *)
Definition overwrite (dst : list byte) (at_ : nat) (src : list byte) : list byte :=
  let padded := dst ++ replicate (at_ - List.length dst)%nat x00 in
  take at_ padded ++ src ++ drop (at_ + List.length src)%nat padded.

(** The bytes a view shows. *)
Definition view_bytes (heap : list byte) (v : Uint8Array) : list byte :=
  take (Z.to_nat (byteLength v)) (drop (Z.to_nat (byteOffset v)) heap).

(** State of the in-memory store: its bytes, and whether its owner has
    closed the handle. *)
Record MemStore : Type := mkStore { contents : list byte; closed : bool }.

Definition InvalidStateError : JSError := DOMException "InvalidStateError".

(** A method of the in-memory handle: it throws once the handle is closed,
    and on a negative position. *)
Definition mem_method {A} (at_ : Z) (m : IO MemStore -> A * IO MemStore)
  : JS (IO MemStore) A :=
  fun i =>
    if closed (store i) then (Throw InvalidStateError, i)
    else if at_ <? 0 then (Throw (TypeError "at"), i)
    else let '(a, i') := m i in (Normal a, i').

(** Modelled from the spec: an in-memory backing store (§4.2; the handle a
    caller passes in is not part of this repository).  [readInto] copies
    at most the view's length, less at end of store; [writeFrom] writes the
    whole view and extends the store; [sizeOf] is the current length. *)
Definition MemHandle : SyncAccessHandle MemStore := {|
  ah_read := fun view at_ =>
    mem_method at_ (fun i =>
      let data := take (Z.to_nat (byteLength view))
                       (drop (Z.to_nat at_) (contents (store i))) in
      (Z.of_nat (List.length data),
       mkIO (overwrite (HEAPU8 i) (Z.to_nat (byteOffset view)) data) (store i)));
  ah_write := fun view at_ =>
    mem_method at_ (fun i =>
      let data := view_bytes (HEAPU8 i) view in
      (Z.of_nat (List.length data),
       mkIO (HEAPU8 i)
            (mkStore (overwrite (contents (store i)) (Z.to_nat at_) data) false)));
  ah_getSize :=
    mem_method 0 (fun i => (Z.of_nat (List.length (contents (store i))), i));
  ah_flush := mem_method 0 (fun i => (tt, i));
  ah_close :=
    mem_method 0 (fun i => (tt, mkIO (HEAPU8 i) (mkStore (contents (store i)) true)))
|}.

(** Entries of the reference file tree. *)
Inductive Node : Type :=
  | DirNode
  | FileNode
  | DevNode (rdev : Z * Z).

#[global] Instance Node_eq_dec : EqDecision Node.
Proof. solve_decision. Defined.

Definition EEXIST : Z := 20.
Definition ENOENT : Z := 44.
Definition ENOTDIR : Z := 54.

(** State of the reference file system: the tree, keyed by path, and the
    table of registered devices, keyed by device identity. *)
Record MemFS (S : Type) : Type := mkMemFS {
  nodes : gmap string Node;
  devices : gmap (Z * Z) (stream_ops S)
}.
Arguments mkMemFS {S} _ _.
Arguments nodes {S} _.
Arguments devices {S} _.

(** Create an entry: the parent must be a directory and the path free. *)
Definition memfs_mknod {S} (path : string) (n : Node) : JS (MemFS S) unit :=
  fun t =>
    match nodes t !! dirPath_of path with
    | None => (Throw (ErrnoError ENOENT), t)
    | Some DirNode =>
        match nodes t !! path with
        | Some _ => (Throw (ErrnoError EEXIST), t)
        | None => (Normal tt, mkMemFS (<[path := n]> (nodes t)) (devices t))
        end
    | Some _ => (Throw (ErrnoError ENOTDIR), t)
    end.

(** Modelled from the spec: the hosting file system (§6, directory-tree
    collaborator; the [FS] object is not part of this repository).  A
    device identity is the (major, minor) pair itself; registering a device
    records its callbacks; [mkdir] and [mkdev] create one entry, and raise
    when the entry exists (source: "Ignore if exists"; spec:
    "fails if path occupied") or when the parent is not an existing
    directory (source: "FS.mkdev requires the directory to exist"). *)
Definition RefFS {S} : HostFS (MemFS S) (Z * Z) S := {|
  FS_makedev := fun ma mi => mret (ma, mi);
  FS_registerDevice := fun dev ops =>
    modify (fun t => mkMemFS (nodes t) (<[dev := ops]> (devices t)));
  FS_mkdir := fun path => memfs_mknod path DirNode;
  FS_mkdev := fun path dev =>
    match path with
    | VString p => memfs_mknod p (DevNode dev)
    | _ => throw (TypeError "path")
    end
|}.

(** The tree at start-up: the root directory alone. *)
Definition memfs_root {S} : MemFS S := mkMemFS {[ "/" := DirNode ]} ∅.

(** A freshly started runtime: counter never set, file system up. *)
Definition fresh_world {S} : World (MemFS S) :=
  mkWorld None (Some memfs_root) [].

(** ** Vocabulary of the statements *)

(** The three seek origins and the numbers [whence] carries for them. *)
Inductive SeekOrigin : Type := START | CURRENT | END.

Definition whence_of (origin : SeekOrigin) : Z :=
  match origin with START => 0 | CURRENT => 1 | END => 2 end.

(** The specification's seek arithmetic, in its own words: START is
    absolute, CURRENT is relative to the current position, END is relative
    to the store size.  [llseek] is compared with it below. *)
Definition SeekCursor_resolve
    (currentPosition requestedOffset : Z) (origin : SeekOrigin) (storeSize : Z) : Z :=
  match origin with
  | START => requestedOffset
  | CURRENT => currentPosition + requestedOffset
  | END => storeSize + requestedOffset
  end.

(** The assignment [stream.position = p], which the operations in this
    file never perform; the caller of [llseek] does. *)
Definition set_position {S} (p : Z) (d : DeviceState S) : DeviceState S :=
  mkDev (mkStream (fd (stream d)) p) (io d).

(** The bounded-read contract of a backing store: a read into a view
    transfers between 0 and the view's length bytes. *)
Definition bounded_read {S} (h : SyncAccessHandle S) : Prop :=
  forall view at_ i n i',
    0 <= byteLength view ->
    ah_read h view at_ i = (Normal n, i') ->
    0 <= n <= byteLength view.

(** The minor number a call of [registerOpfsFile] allocates in world [w]
    (lines 22-23). *)
Definition next_minor {T} (w : World T) : Z :=
  match opfs_device_minor w with
  | None => 1
  | Some n => if n =? 0 then 1 else n + 1
  end.

(** Registration runs to its end from world [w]: the file system is
    there, the device number is made and registered, [path] is a string,
    and (whatever [FS.mkdir] does) [FS.mkdev] returns normally, leaving
    the file system in state [t4].  This speaks of the calls the function
    makes, not of what it returns. *)
Definition registration_completes {T D S} (fs : HostFS T D S)
    (path : JSValue) (accessHandle : SyncAccessHandle S) (w : World T)
    (t4 : T) : Prop :=
  exists t device t1 t2 p r t3,
    FS w = Some t /\
    FS_makedev fs 80 (next_minor w) t = (Normal device, t1) /\
    FS_registerDevice fs device (opfs_stream_ops accessHandle) t1 = (Normal tt, t2) /\
    path = VString p /\
    FS_mkdir fs (dirPath_of p) t2 = (r, t3) /\
    FS_mkdev fs path device t3 = (Normal tt, t4).





(** The line [registerOpfsFile] logs when its outer [catch] runs. *)
Definition failure_log (e : JSError) : LogLine :=
  mkLog "Failed to register OPFS device:" (Some e).

(** What a call returns when its outer [catch] runs on error [e], the
    counter being [m] and the file system [t] by then. *)
Definition caught {T} (e : JSError) (m : Z) (t : T) (w : World T)
  : Completion bool * World T :=
  (Normal false, mkWorld (Some m) (Some t) (console w ++ [failure_log e])).

(** A sequence of calls whose paths are strings. *)
Definition string_calls {S} (calls : list (string * SyncAccessHandle S))
  : list (JSValue * SyncAccessHandle S) :=
  map (fun c => (VString (fst c), snd c)) calls.

(** Sample data for the closed examples. *)
Definition heap4 : list byte := [x01; x02; x03; x04].
Definition store10 : MemStore :=
  mkStore [x00; x01; x02; x03; x04; x05; x06; x07; x08; x09] false.
Definition dev_at (pos : Z) : DeviceState MemStore :=
  mkDev (mkStream 3 pos) (mkIO heap4 store10).

(** ** Vocabulary of the further properties *)

(** [s] holds no occurrence of the character [sep]. *)
Fixpoint free_of (sep : ascii) (s : string) : bool :=
  match s with
  | EmptyString => true
  | String c rest => negb (Ascii.eqb c sep) && free_of sep rest
  end.

(** View [v] lies inside view [b] and is not of negative length. *)
Definition view_within (v b : Uint8Array) : Prop :=
  byteOffset b <= byteOffset v /\
  byteOffset v + byteLength v <= byteOffset b + byteLength b /\
  0 <= byteLength v.

(** The number held by [Module["_opfs_device_minor"]], 0 while unset. *)
Definition counter_value {T} (w : World T) : Z :=
  default 0 (opfs_device_minor w).

(** Consistency of the counter with the reference file system: the counter
    is not negative; every registered device has major 80 and a minor
    between 1 and the counter; every device node of the tree points to a
    registered device. *)
Definition registry_ok {S} (w : World (MemFS S)) : Prop :=
  0 <= counter_value w /\
  forall t, FS w = Some t ->
    (forall ma mi, is_Some (devices t !! (ma, mi)) ->
       ma = 80 /\ 1 <= mi <= counter_value w) /\
    (forall p d, nodes t !! p = Some (DevNode d) -> is_Some (devices t !! d)).

(** * The model at work *)

Example str_split_absolute : str_split "/" "/a/b" = [EmptyString; "a"; "b"].
Proof. reflexivity. Qed.

Example str_split_empty : str_split "/" EmptyString = [EmptyString].
Proof. reflexivity. Qed.

Example dirPath_of_nested : dirPath_of "/media/raw/in.dat" = "/media/raw".
Proof. reflexivity. Qed.

Example dirPath_of_root_entry : dirPath_of "/in.dat" = "/".
Proof. reflexivity. Qed.

Example dirPath_of_relative : dirPath_of "in.dat" = "/".
Proof. reflexivity. Qed.

Example subarray_clamps_end : subarray (mkView 16 4) 3 9 = mkView 19 1.
Proof. reflexivity. Qed.

Example subarray_from_end : subarray (mkView 16 4) (-1) 4 = mkView 19 1.
Proof. reflexivity. Qed.

(** A first mount on a fresh runtime: minor 1, device registered, node
    bound, nothing logged. *)
Example first_mount :
  registerOpfsFile RefFS (VString "/x") MemHandle fresh_world =
  (Normal true,
   mkWorld (Some 1)
     (Some (mkMemFS {[ "/" := DirNode; "/x" := DevNode (80, 1) ]}
                    {[ (80, 1) := opfs_stream_ops MemHandle ]}))
     []).
Proof. vm_compute. reflexivity. Qed.

(** A path that is not a string: the type error of [path.split] is caught,
    after the minor number was taken and the device registered. *)
Example mount_undefined_path :
  registerOpfsFile RefFS VUndefined MemHandle fresh_world =
  (Normal false,
   mkWorld (Some 1)
     (Some (mkMemFS {[ "/" := DirNode ]}
                    {[ (80, 1) := opfs_stream_ops MemHandle ]}))
     [failure_log (TypeError "Cannot read properties of undefined")]).
Proof. vm_compute. reflexivity. Qed.

(** An unknown [whence] leaves the position where it was. *)
Example llseek_unknown_whence :
  llseek MemHandle 4 7 (dev_at 5) = (Normal 5, dev_at 5).
Proof. reflexivity. Qed.

(** A closed handle makes [llseek] from END throw. *)
Example llseek_END_closed_handle :
  fst (llseek MemHandle 0 2
         (mkDev (mkStream 3 0) (mkIO heap4 (mkStore [] true))))
  = Throw InvalidStateError.
Proof. reflexivity. Qed.

(** * Properties of the stream operations *)

Section StreamOpsFacts.
Context {S : Type}.
Variable accessHandle : SyncAccessHandle S.

Lemma call_handle_run {A} (m : JS (IO S) A) s i :
  call_handle m (mkDev s i) = (let '(r, i') := m i in (r, mkDev s i')).
Proof. reflexivity. Qed.

Lemma read_run buffer offset length pos s i :
  read accessHandle buffer offset length pos (mkDev s i) =
  (let '(r, i') :=
     ah_read accessHandle (subarray buffer offset (offset + length)) pos i in
   (r, mkDev s i')).
Proof.
  unfold read, mbind, JS_bind, call_handle; simpl.
  destruct (ah_read _ _ _ _) as [[n|e] i']; reflexivity.
Qed.

Lemma write_run buffer offset length pos s i :
  write accessHandle buffer offset length pos (mkDev s i) =
  (let '(r, i') :=
     ah_write accessHandle (subarray buffer offset (offset + length)) pos i in
   (r, mkDev s i')).
Proof.
  unfold write, mbind, JS_bind, call_handle; simpl.
  destruct (ah_write _ _ _ _) as [[n|e] i']; reflexivity.
Qed.

Lemma subarray_in_bounds buffer offset length :
  0 <= offset -> 0 <= length -> offset + length <= byteLength buffer ->
  subarray buffer offset (offset + length) =
  mkView (byteOffset buffer + offset) length.
Proof.
  intros Ho Hl Hb. unfold subarray, relative_index.
  destruct (Z.ltb_spec offset 0); [lia|].
  destruct (Z.ltb_spec (offset + length) 0); [lia|].
  f_equal; lia.
Qed.

Lemma llseek_START offset d :
  llseek accessHandle offset 0 d = (Normal offset, d).
Proof. reflexivity. Qed.

Lemma llseek_CURRENT offset d :
  llseek accessHandle offset 1 d = (Normal (position (stream d) + offset), d).
Proof. reflexivity. Qed.

Lemma llseek_END offset d :
  llseek accessHandle offset 2 d =
  match ah_getSize accessHandle (io d) with
  | (Normal size, i') => (Normal (size + offset), mkDev (stream d) i')
  | (Throw e, i') => (Throw e, mkDev (stream d) i')
  end.
Proof.
  unfold llseek, mbind, JS_bind, gets, call_handle; simpl.
  destruct (ah_getSize _ _) as [[n|e] i']; reflexivity.
Qed.

Lemma llseek_other offset whence d :
  whence <> 0 -> whence <> 1 -> whence <> 2 ->
  llseek accessHandle offset whence d = (Normal (position (stream d)), d).
Proof.
  intros H0 H1 H2. unfold llseek, mbind, JS_bind, gets; simpl.
  destruct (Z.eqb_spec whence 0); [lia|].
  destruct (Z.eqb_spec whence 1); [lia|].
  destruct (Z.eqb_spec whence 2); [lia|]. reflexivity.
Qed.
End StreamOpsFacts.

Lemma MemHandle_bounded_read : bounded_read MemHandle.
Proof.
  intros view at_ i n i' Hlen. simpl. unfold mem_method.
  destruct (closed (store i)); [discriminate|].
  destruct (at_ <? 0); [discriminate|].
  intros [= <- _]. rewrite length_take. lia.
Qed.

(** ** C9: closing a stream *)

(** C9. [close(stream)] always succeeds (it returns 0 and never throws) and
    leaves everything it could reach as it was: for every handle, whatever
    its [flush] and [close] methods would do, the backing store, the linear
    memory and the stream after the call equal those before it. *)
Theorem close_leaves_backing_store {S} (accessHandle : SyncAccessHandle S)
    (d : DeviceState S) :
  ops_close (opfs_stream_ops accessHandle) d = (Normal 0, d) /\
  store (io (snd (ops_close (opfs_stream_ops accessHandle) d))) = store (io d).
Proof. split; reflexivity. Qed.

(** After [close(stream)] the handle is as usable as before: a read of 4
    bytes still transfers 4.  Had the handle's own [close()] been called,
    the read would throw. *)
Example handle_outlives_stream :
  let ops := opfs_stream_ops MemHandle in
  let d := snd (ops_close ops (dev_at 0)) in
  fst (ops_read ops (mkView 0 4) 0 4 0 d) = Normal 4 /\
  fst (ah_read MemHandle (mkView 0 4) 0 (snd (ah_close MemHandle (io d))))
    = Throw InvalidStateError.
Proof. split; reflexivity. Qed.

(** ** C7: opening a stream *)

(** C7, as stated, fails: [open] does not write the stream's position.  A
    stream object that holds position 5 still holds 5 after [open]. *)
Lemma open_position_counterexample :
  position (stream (snd (ops_open (opfs_stream_ops MemHandle) (dev_at 5)))) <> 0.
Proof. simpl. discriminate. Qed.

(** C7, amended. [open(stream)] returns 0, never throws, and has no side
    effect at all: the stream (its position included) is left as the
    hosting layer created it, and the linear memory and backing store are
    untouched. *)
Theorem open_no_effect {S} (accessHandle : SyncAccessHandle S)
    (d : DeviceState S) :
  ops_open (opfs_stream_ops accessHandle) d = (Normal 0, d) /\
  position (stream (snd (ops_open (opfs_stream_ops accessHandle) d))) =
  position (stream d).
Proof. split; reflexivity. Qed.

(** ** C1: what [llseek] returns and what it leaves *)

(** C1, as stated, fails: [llseek] returns the new position but does not
    store it.  Seeking to 10 from START on a stream at 5 returns 10 and
    leaves the stream at 5. *)
Lemma llseek_position_counterexample :
  fst (ops_llseek (opfs_stream_ops MemHandle) 10 (whence_of START) (dev_at 5))
    = Normal 10 /\
  position (stream (snd
    (ops_llseek (opfs_stream_ops MemHandle) 10 (whence_of START) (dev_at 5))))
    <> 10.
Proof. split; [reflexivity | simpl; discriminate]. Qed.

(** C1, amended. For each of the three origins, [llseek] returns the
    position given by the seek arithmetic and leaves the stream object
    unchanged (storing the result is left to the caller); for END the size
    is the one [getSize] returns at the call, and the arithmetic is done
    only if [getSize] returns normally. *)
Theorem llseek_returns_resolved {S} (accessHandle : SyncAccessHandle S)
    (origin : SeekOrigin) (offset : Z) (d : DeviceState S) (size : Z) (i' : IO S) :
  (origin = END -> ah_getSize accessHandle (io d) = (Normal size, i')) ->
  ops_llseek (opfs_stream_ops accessHandle) offset (whence_of origin) d =
  (Normal (SeekCursor_resolve (position (stream d)) offset origin size),
   mkDev (stream d) (match origin with END => i' | _ => io d end)).
Proof.
  intros Hsize. destruct origin; cbn [opfs_stream_ops ops_llseek whence_of].
  - rewrite llseek_START. by destruct d.
  - rewrite llseek_CURRENT. by destruct d.
  - rewrite llseek_END, (Hsize eq_refl). reflexivity.
Qed.

Lemma llseek_returns_resolved_witness :
  ah_getSize MemHandle (io (dev_at 7)) = (Normal 10, io (dev_at 7)) /\
  ops_llseek (opfs_stream_ops MemHandle) 5 (whence_of END) (dev_at 7) =
  (Normal 15, dev_at 7).
Proof.
  split; [reflexivity|].
  apply (llseek_returns_resolved MemHandle END 5 (dev_at 7) 10 (io (dev_at 7))).
  intros _. reflexivity.
Defined.

(** ** C2: the range of the result *)

(** C2, as stated, fails: the result can be negative.  Seeking to -5 from
    START returns -5. *)
Lemma llseek_negative_counterexample :
  exists p,
    fst (ops_llseek (opfs_stream_ops MemHandle) (-5) (whence_of START) (dev_at 7))
      = Normal p /\ p < 0.
Proof. exists (-5). split; [reflexivity | lia]. Qed.

(** C2, amended. On a store of size [size], the result of [llseek] is
    exactly the arithmetic value, for every offset: it is not clamped to
    the store size (it exceeds the size whenever the arithmetic does) and
    it is not checked against zero either; it is non-negative whenever the
    offset, the current position and the size are. *)
Theorem llseek_not_clamped {S} (accessHandle : SyncAccessHandle S)
    (origin : SeekOrigin) (offset : Z) (d : DeviceState S) (size : Z) (i' : IO S) :
  ah_getSize accessHandle (io d) = (Normal size, i') ->
  let target := SeekCursor_resolve (position (stream d)) offset origin size in
  fst (ops_llseek (opfs_stream_ops accessHandle) offset (whence_of origin) d)
    = Normal target /\
  (size < target ->
   exists p, fst (ops_llseek (opfs_stream_ops accessHandle) offset
                    (whence_of origin) d) = Normal p /\ size < p) /\
  (0 <= offset -> 0 <= position (stream d) -> 0 <= size -> 0 <= target).
Proof.
  intros Hsize target.
  assert (Hrun : fst (ops_llseek (opfs_stream_ops accessHandle) offset
                        (whence_of origin) d) = Normal target).
  { subst target. destruct origin; cbn [opfs_stream_ops ops_llseek whence_of].
    - by rewrite llseek_START.
    - by rewrite llseek_CURRENT.
    - by rewrite llseek_END, Hsize. }
  split; [exact Hrun|]. split.
  - intros Hpast. exists target. split; [exact Hrun | exact Hpast].
  - intros Ho Hp Hs. subst target. destruct origin; simpl; lia.
Qed.

Lemma llseek_not_clamped_witness :
  ah_getSize MemHandle (io (dev_at 7)) = (Normal 10, io (dev_at 7)) /\
  fst (ops_llseek (opfs_stream_ops MemHandle) 100 (whence_of CURRENT) (dev_at 7))
    = Normal 107.
Proof.
  split; [reflexivity|].
  apply (llseek_not_clamped MemHandle CURRENT 100 (dev_at 7) 10 (io (dev_at 7))).
  reflexivity.
Defined.

(** ** C8: seeking to the end and back *)

(** C8, as stated, fails on the operations alone: the first [llseek] does
    not move the stream, so the second one counts from the old position.
    On a 10-byte store and a stream at 0, [llseek(0, END)] returns 10 and
    [llseek(-3, CURRENT)] then returns -3, not 7. *)
Lemma seek_round_trip_counterexample :
  let ops := opfs_stream_ops MemHandle in
  let '(r1, d1) := ops_llseek ops 0 (whence_of END) (dev_at 0) in
  let '(r2, d2) := ops_llseek ops (-3) (whence_of CURRENT) d1 in
  r1 = Normal 10 /\ r2 = Normal (-3) /\ r2 <> Normal (10 - 3).
Proof. simpl. repeat split; discriminate. Qed.

(** C8, amended. On a store whose [getSize] returns [size] at the time of
    the first call, [llseek(0, END)] returns [size]; once the caller has
    stored that result in the stream's position, [llseek(-k, CURRENT)]
    returns [size - k], which for 0 <= k <= size lies between 0 and
    [size]. *)
Theorem seek_round_trip {S} (accessHandle : SyncAccessHandle S)
    (d : DeviceState S) (size k : Z) (i' : IO S) :
  ah_getSize accessHandle (io d) = (Normal size, i') ->
  0 <= k <= size ->
  let ops := opfs_stream_ops accessHandle in
  let d1 := mkDev (stream d) i' in
  ops_llseek ops 0 (whence_of END) d = (Normal size, d1) /\
  ops_llseek ops (- k) (whence_of CURRENT) (set_position size d1) =
    (Normal (size - k), set_position size d1) /\
  0 <= size - k <= size.
Proof.
  intros Hsize Hk ops d1. subst ops d1.
  cbn [opfs_stream_ops ops_llseek whence_of]. split; [|split; [|lia]].
  - rewrite llseek_END, Hsize, Z.add_0_r. reflexivity.
  - rewrite llseek_CURRENT. simpl. rewrite Z.add_opp_r. reflexivity.
Qed.

(** The size used by END is the one the store has when [llseek] runs:
    after a write has grown the 10-byte store to 12 bytes, the round trip
    with k = 2 ends at 10. *)
Lemma seek_round_trip_witness :
  let ops := opfs_stream_ops MemHandle in
  let d := snd (ops_write ops (mkView 0 4) 0 4 8 (dev_at 0)) in
  ah_getSize MemHandle (io d) = (Normal 12, io d) /\
  0 <= 2 <= 12 /\
  ops_llseek ops 0 (whence_of END) d = (Normal 12, d) /\
  ops_llseek ops (- 2) (whence_of CURRENT) (set_position 12 d) =
    (Normal 10, set_position 12 d).
Proof.
  intros ops d.
  assert (Hsize : ah_getSize MemHandle (io d) = (Normal 12, io d))
    by reflexivity.
  assert (Hk : 0 <= 2 <= 12) by lia.
  destruct (seek_round_trip MemHandle d 12 2 (io d) Hsize Hk) as (H1 & H2 & _).
  split; [exact Hsize|]. split; [exact Hk|]. split; [exact H1 | exact H2].
Defined.

(** ** C6: positioned reads and writes *)

(** C6. [read] and [write] are one call of the handle's method each: the
    handle receives the view [buffer.subarray(offset, offset + length)]
    (which, for a range inside [buffer], is exactly the [length] bytes at
    [offset]) and the position argument as given; the completion of the
    call is returned as it is and the state is the one the handle left.
    The stream object is neither read nor written, and nothing is kept
    between calls.  When the handle obeys the bounded-read contract, the
    count [read] returns lies in [0..length]. *)
Theorem read_write_pass_through {S} (accessHandle : SyncAccessHandle S)
    (buffer : Uint8Array) (offset length pos : Z) (s : OpenStream) (i : IO S) :
  0 <= offset -> 0 <= length -> offset + length <= byteLength buffer ->
  let ops := opfs_stream_ops accessHandle in
  let view := mkView (byteOffset buffer + offset) length in
  ops_read ops buffer offset length pos (mkDev s i) =
    (let '(r, i') := ah_read accessHandle view pos i in (r, mkDev s i')) /\
  ops_write ops buffer offset length pos (mkDev s i) =
    (let '(r, i') := ah_write accessHandle view pos i in (r, mkDev s i')) /\
  (bounded_read accessHandle ->
   forall n d', ops_read ops buffer offset length pos (mkDev s i) = (Normal n, d') ->
                0 <= n <= length).
Proof.
  intros Ho Hl Hb ops view. subst ops view.
  cbn [opfs_stream_ops ops_read ops_write].
  rewrite read_run, write_run, subarray_in_bounds by assumption.
  split; [reflexivity|]. split; [reflexivity|].
  intros Hbounded n d'.
  destruct (ah_read accessHandle _ pos i) as [r i'] eqn:Hread.
  intros [= -> _].
  exact (Hbounded (mkView (byteOffset buffer + offset) length) pos i n i' Hl Hread).
Qed.

(** Reading 2 bytes into [buffer[1..3)] at position 9 of the 10-byte store
    transfers the single byte that is left; writing the same range at
    position 9 transfers 2 bytes and grows the store. *)
Lemma read_write_pass_through_witness :
  let ops := opfs_stream_ops MemHandle in
  (0 <= 1 /\ 0 <= 2 /\ 1 + 2 <= byteLength (mkView 0 4)) /\
  fst (ops_read ops (mkView 0 4) 1 2 9 (dev_at 5)) = Normal 1 /\
  HEAPU8 (io (snd (ops_read ops (mkView 0 4) 1 2 9 (dev_at 5))))
    = [x01; x09; x03; x04] /\
  fst (ops_write ops (mkView 0 4) 1 2 9 (dev_at 5)) = Normal 2 /\
  0 <= 1 <= 2.
Proof.
  intros ops.
  assert (Ho : 0 <= 1) by lia.
  assert (Hl : 0 <= 2) by lia.
  assert (Hb : 1 + 2 <= byteLength (mkView 0 4)) by (simpl; lia).
  destruct (read_write_pass_through MemHandle (mkView 0 4) 1 2 9
              (mkStream 3 5) (mkIO heap4 store10) Ho Hl Hb) as (Hr & Hw & Hn).
  split; [auto|].
  split; [unfold dev_at; subst ops; rewrite Hr; reflexivity|].
  split; [unfold dev_at; subst ops; rewrite Hr; reflexivity|].
  split; [unfold dev_at; subst ops; rewrite Hw; reflexivity|].
  apply (Hn MemHandle_bounded_read 1
           (snd (ops_read (opfs_stream_ops MemHandle) (mkView 0 4) 1 2 9 (dev_at 5)))).
  unfold dev_at. rewrite Hr. reflexivity.
Defined.

(** * Properties of [registerOpfsFile] *)

Section RegisterFacts.
Context {T D S : Type}.
Variable fs : HostFS T D S.

Lemma dirPath_of_split (p : string) :
  (let '(fileName, parts) := arr_pop (str_split "/" p) in
   str_or (arr_join "/" parts) "/") = dirPath_of p.
Proof. reflexivity. Qed.

(** The guard of lines 11-14. *)
Lemma registerOpfsFile_no_FS path accessHandle (w : World T) :
  FS w = None ->
  registerOpfsFile fs path accessHandle w =
  (Normal false,
   mkWorld (opfs_device_minor w) None
           (console w ++ [mkLog "FS not initialized." None])).
Proof.
  intros HFS. destruct w as [c [t|] log]; [discriminate|]. reflexivity.
Qed.

(** The counter update of lines 22-23, on its own. *)
Lemma allocate_minor_run (w : World T) :
  (unset ← gets minor_unset;
   (if unset : bool then modify (set_minor 0) else mret tt);;
   pre_increment_minor) w =
  (Normal (next_minor w), set_minor (next_minor w) w).
Proof.
  unfold mbind, JS_bind, gets, modify, mret, JS_ret, pre_increment_minor,
    minor_unset, next_minor, set_minor.
  destruct w as [[n|] t log]; simpl; [|reflexivity].
  destruct (n =? 0); reflexivity.
Qed.

(** The whole function when [FS] is defined, call by call. *)
Lemma registerOpfsFile_run path accessHandle (w : World T) (t : T) :
  FS w = Some t ->
  registerOpfsFile fs path accessHandle w =
  let m := next_minor w in
  match FS_makedev fs 80 m t with
  | (Throw e, t1) => caught e m t1 w
  | (Normal device, t1) =>
      match FS_registerDevice fs device (opfs_stream_ops accessHandle) t1 with
      | (Throw e, t2) => caught e m t2 w
      | (Normal _, t2) =>
          match path with
          | VUndefined =>
              caught (TypeError "Cannot read properties of undefined") m t2 w
          | VNumber _ => caught (TypeError "path.split is not a function") m t2 w
          | VString p =>
              let t3 := snd (FS_mkdir fs (dirPath_of p) t2) in
              match FS_mkdev fs path device t3 with
              | (Throw e, t4) => caught e m t4 w
              | (Normal _, t4) =>
                  (Normal true, mkWorld (Some m) (Some t4) (console w))
              end
          end
      end
  end.
Proof.
  intros HFS. destruct w as [c fso log]. simpl in HFS. subst fso.
  unfold registerOpfsFile, register_body, try_catch, call_FS, console_error,
    caught, mbind, JS_bind, gets, modify, mret, JS_ret, pre_increment_minor,
    minor_unset, set_minor, dirPath_of.
  cbn [FS opfs_device_minor console is_undefined].
  assert (Hm : (match c with Some n => n =? 0 | None => true end) = true /\
               next_minor (mkWorld c (Some t) log) = 1 \/
               (match c with Some n => n =? 0 | None => true end) = false /\
               next_minor (mkWorld c (Some t) log) = default 0 c + 1).
  { unfold next_minor. destruct c as [n|]; simpl; [|by left].
    destruct (n =? 0); [by left | by right]. }
  destruct Hm as [[-> ->] | [-> ->]]; simpl;
    (destruct (FS_makedev fs 80 _ t) as [[device|e] t1]; simpl;
       [|reflexivity]);
    (destruct (FS_registerDevice fs device _ t1) as [[[]|e] t2]; simpl;
       [|reflexivity]);
    (destruct path as [|n|p]; simpl; try reflexivity);
    (destruct (FS_mkdir fs _ t2) as [[[]|e] t3]; simpl);
    (destruct (FS_mkdev fs (VString p) device t3) as [[[]|e'] t4]);
    reflexivity.
Qed.
End RegisterFacts.

(** ** C10: the entry point always returns a boolean *)

(** C10. For every file system, path value, handle and world,
    [registerOpfsFile] ends normally with a boolean: no exception reaches
    the caller.  Whenever registration runs to its end (the file system is
    there, [makedev], [registerDevice] and [mkdev] return normally on a
    string path) the call returns [true] and leaves the counter at the
    allocated minor, the file system as [mkdev] left it and the console
    untouched; and it returns [true] only then, so every failure gives
    [false].  When [FS] is undefined it is [false], the minor counter and
    [FS] are left as they were, and the only effect is one line on the
    error console. *)
Theorem registerOpfsFile_returns_boolean {T D S} (fs : HostFS T D S)
    (path : JSValue) (accessHandle : SyncAccessHandle S) (w : World T) :
  exists (b : bool) (w' : World T),
    registerOpfsFile fs path accessHandle w = (Normal b, w') /\
    (forall t4, registration_completes fs path accessHandle w t4 ->
       b = true /\
       w' = mkWorld (Some (next_minor w)) (Some t4) (console w)) /\
    (b = true -> exists t4, registration_completes fs path accessHandle w t4) /\
    (FS w = None ->
     b = false /\
     opfs_device_minor w' = opfs_device_minor w /\
     FS w' = FS w /\
     console w' = console w ++ [mkLog "FS not initialized." None]).
Proof.
  destruct (FS w) as [t|] eqn:HFS.
  - rewrite (registerOpfsFile_run fs path accessHandle w t HFS).
    cbv zeta. unfold caught.
    destruct (FS_makedev fs 80 (next_minor w) t) as [[device|e] t1] eqn:Hmk.
    2:{ eexists false, _. split; [reflexivity|]. split; [|split; discriminate].
        intros t4 (t' & dv & ta & tb & p & r & tc & Ht & Hm & _).
        congruence. }
    destruct (FS_registerDevice fs device _ t1) as [[[]|e] t2] eqn:Hreg.
    2:{ eexists false, _. split; [reflexivity|]. split; [|split; discriminate].
        intros t4 (t' & dv & ta & tb & p & r & tc & Ht & Hm & Hr & _).
        congruence. }
    destruct path as [|n|p].
    1,2: eexists false, _; (split; [reflexivity|]);
         (split; [|split; discriminate]);
         intros t4 (t' & dv & ta & tb & p & r & tc & _ & _ & _ & Hp & _);
         discriminate.
    destruct (FS_mkdir fs (dirPath_of p) t2) as [r t3] eqn:Hdir. cbn [snd].
    destruct (FS_mkdev fs (VString p) device t3) as [[[]|e] t4] eqn:Hdev.
    + eexists true, _. split; [reflexivity|]. split; [|split; [|discriminate]].
      * intros t4' (t' & dv & ta & tb & p' & r' & tc
                    & Ht & Hm & Hr & Hp & Hd & Hv).
        split; [reflexivity|].
        assert (t' = t) by congruence. subst t'.
        rewrite Hmk in Hm. injection Hm as <- <-.
        rewrite Hreg in Hr. injection Hr as <-.
        injection Hp as <-.
        rewrite Hdir in Hd. injection Hd as <- <-.
        rewrite Hdev in Hv. injection Hv as <-. reflexivity.
      * intros _. exists t4, t, device, t1, t2, p, r, t3. auto 10.
    + eexists false, _. split; [reflexivity|]. split; [|split; discriminate].
      intros t4' (t' & dv & ta & tb & p' & r' & tc
                  & Ht & Hm & Hr & Hp & Hd & Hv).
      congruence.
  - rewrite (registerOpfsFile_no_FS fs path accessHandle w HFS).
    eexists false, _. split; [reflexivity|]. split; [|split].
    + intros t4 (t' & dv & ta & tb & p & r & tc & Ht & _). congruence.
    + discriminate.
    + intros _. simpl. auto.
Qed.

(** On a fresh runtime registration of "/x" runs to its end, so the call
    returns [true] with the counter at 1 and "/x" bound; with [FS]
    undefined and the counter at 3, the call returns [false] and leaves
    the counter at 3 and [FS] undefined. *)
Lemma registerOpfsFile_returns_boolean_witness :
  let t4 : MemFS MemStore :=
    mkMemFS {[ "/" := DirNode; "/x" := DevNode (80, 1) ]}
            {[ (80, 1) := opfs_stream_ops MemHandle ]} in
  let w : World (MemFS MemStore) := mkWorld (Some 3) None [] in
  registration_completes RefFS (VString "/x") MemHandle fresh_world t4 /\
  registerOpfsFile RefFS (VString "/x") MemHandle fresh_world =
    (Normal true, mkWorld (Some 1) (Some t4) []) /\
  FS w = None /\
  exists w',
    registerOpfsFile RefFS (VString "/x") MemHandle w = (Normal false, w') /\
    opfs_device_minor w' = Some 3 /\ FS w' = None.
Proof.
  intros t4 w.
  assert (Hdone : registration_completes RefFS (VString "/x") MemHandle
                    fresh_world t4).
  { exists memfs_root, (80, 1), memfs_root,
      (mkMemFS {[ "/" := DirNode ]} {[ (80, 1) := opfs_stream_ops MemHandle ]}),
      "/x", (Throw (ErrnoError EEXIST)),
      (mkMemFS {[ "/" := DirNode ]} {[ (80, 1) := opfs_stream_ops MemHandle ]}).
    repeat split; vm_compute; reflexivity. }
  split; [exact Hdone|]. split.
  - destruct (registerOpfsFile_returns_boolean RefFS (VString "/x") MemHandle
                fresh_world) as (b & w' & Hrun & Hdone' & _).
    destruct (Hdone' t4 Hdone) as [-> ->]. exact Hrun.
  - split; [reflexivity|].
    destruct (registerOpfsFile_returns_boolean RefFS (VString "/x") MemHandle w)
      as (b & w' & Hrun & _ & _ & Hguard).
    destruct (Hguard eq_refl) as (-> & Hminor & HFS & _).
    exists w'. split; [exact Hrun|]. split; [exact Hminor | exact HFS].
Defined.

(** * [registerOpfsFile] on the reference file system *)

Section OnRefFS.
Context {S : Type}.
Implicit Types (t : MemFS S) (w : World (MemFS S)) (p q : string).

Lemma mknod_fresh p (x : Node) t :
  nodes t !! dirPath_of p = Some DirNode -> nodes t !! p = None ->
  memfs_mknod p x t = (Normal tt, mkMemFS (<[p := x]> (nodes t)) (devices t)).
Proof. intros Hdir Hp. unfold memfs_mknod. by rewrite Hdir, Hp. Qed.

Lemma mknod_occupied p (x n : Node) t :
  nodes t !! dirPath_of p = Some DirNode -> nodes t !! p = Some n ->
  memfs_mknod p x t = (Throw (ErrnoError EEXIST), t).
Proof. intros Hdir Hp. unfold memfs_mknod. by rewrite Hdir, Hp. Qed.

Lemma mknod_no_parent p (x : Node) t :
  nodes t !! dirPath_of p = None ->
  memfs_mknod p x t = (Throw (ErrnoError ENOENT), t).
Proof. intros Hdir. unfold memfs_mknod. by rewrite Hdir. Qed.

Lemma mknod_parent_not_dir p (x n : Node) t :
  nodes t !! dirPath_of p = Some n -> n <> DirNode ->
  memfs_mknod p x t = (Throw (ErrnoError ENOTDIR), t).
Proof.
  intros Hdir Hn. unfold memfs_mknod. rewrite Hdir. by destruct n.
Qed.

(** A bound path cannot be created again, whatever the state of its
    parent, and the attempt changes nothing. *)
Lemma mknod_bound_throws p (x n : Node) t :
  nodes t !! p = Some n ->
  exists e, memfs_mknod p x t = (Throw (ErrnoError e), t).
Proof.
  intros Hp. unfold memfs_mknod. rewrite Hp.
  destruct (nodes t !! dirPath_of p) as [[]|]; eauto.
Qed.

(** Creating an entry never rebinds an existing one. *)
Lemma mknod_keeps_bound p q (x n : Node) t :
  nodes t !! p = Some n ->
  nodes (snd (memfs_mknod q x t)) !! p = Some n.
Proof.
  intros Hp. unfold memfs_mknod.
  destruct (nodes t !! dirPath_of q) as [[]|]; simpl; try done.
  destruct (nodes t !! q) eqn:Hq; simpl; [done|].
  rewrite lookup_insert_ne; [done | congruence].
Qed.

Lemma mknod_devices q (x : Node) t :
  devices (snd (memfs_mknod q x t)) = devices t.
Proof.
  unfold memfs_mknod.
  destruct (nodes t !! dirPath_of q) as [[]|]; simpl; try done.
  by destruct (nodes t !! q).
Qed.

(** The run of [registerOpfsFile] on the reference file system. *)
Lemma registerOpfsFile_RefFS p (accessHandle : SyncAccessHandle S) w t :
  FS w = Some t ->
  registerOpfsFile RefFS (VString p) accessHandle w =
  let m := next_minor w in
  let t2 := mkMemFS (nodes t)
              (<[(80, m) := opfs_stream_ops accessHandle]> (devices t)) in
  let t3 := snd (memfs_mknod (dirPath_of p) DirNode t2) in
  match memfs_mknod p (DevNode (80, m)) t3 with
  | (Throw e, t4) => caught e m t4 w
  | (Normal _, t4) => (Normal true, mkWorld (Some m) (Some t4) (console w))
  end.
Proof.
  intros HFS. rewrite (registerOpfsFile_run RefFS _ _ w t HFS). reflexivity.
Qed.
End OnRefFS.

(** ** C4: mounting twice at one path *)

(** C4, as stated, fails: the second call raises no error of any kind.  It
    returns the boolean [false], the value every other failure returns
    too (here: a path whose parent directory is missing). *)
Lemma duplicate_mount_counterexample :
  let w1 := snd (registerOpfsFile RefFS (VString "/x") MemHandle fresh_world) in
  let r2 := fst (registerOpfsFile RefFS (VString "/x") MemHandle w1) in
  let r3 := fst (registerOpfsFile RefFS (VString "/a/b/c") MemHandle w1) in
  ~ raises r2 /\ r2 = Normal false /\ r2 = r3.
Proof.
  vm_compute. split; [|split; reflexivity].
  intros [e He]. discriminate He.
Qed.

(** C4, amended. On the reference file system, a call at a path that is
    already bound returns [false], after logging the errno error with
    which [FS.mkdev] refused the path; the binding at that path is the
    same after the call.  The failed call still consumes a minor number
    and registers a device under it.  When the parent of the path is a
    directory (as it is after a successful mount), the error is EEXIST and
    the whole tree is unchanged. *)
Theorem duplicate_mount_returns_false {S} (p : string) (n : Node)
    (accessHandle : SyncAccessHandle S) (w : World (MemFS S)) (t : MemFS S) :
  FS w = Some t ->
  nodes t !! p = Some n ->
  exists e t',
    registerOpfsFile RefFS (VString p) accessHandle w =
      caught (ErrnoError e) (next_minor w) t' w /\
    nodes t' !! p = Some n /\
    devices t' =
      <[(80, next_minor w) := opfs_stream_ops accessHandle]> (devices t) /\
    (nodes t !! dirPath_of p = Some DirNode ->
     e = EEXIST /\ nodes t' = nodes t).
Proof.
  intros HFS Hp. rewrite (registerOpfsFile_RefFS p accessHandle w t HFS).
  cbv zeta.
  set (t2 := mkMemFS (nodes t) _).
  set (t3 := snd (memfs_mknod (dirPath_of p) DirNode t2)).
  assert (Hp3 : nodes t3 !! p = Some n) by (by apply mknod_keeps_bound).
  destruct (mknod_bound_throws p (DevNode (80, next_minor w)) n t3 Hp3)
    as [e He].
  exists e, t3. rewrite He. split; [reflexivity|]. split; [exact Hp3|].
  split; [subst t3; by rewrite mknod_devices|].
  intros Hdir.
  assert (Ht3 : t3 = t2).
  { subst t3. unfold memfs_mknod.
    destruct (nodes t2 !! dirPath_of (dirPath_of p)) as [[]|]; try done.
    subst t2. simpl. by rewrite Hdir. }
  rewrite Ht3 in He |- *. split; [|reflexivity].
  rewrite (mknod_occupied p _ n t2) in He by (subst t2; simpl; assumption).
  congruence.
Qed.

Lemma duplicate_mount_returns_false_witness :
  let w1 := snd (registerOpfsFile RefFS (VString "/x") MemHandle fresh_world) in
  FS w1 = Some (mkMemFS {[ "/" := DirNode; "/x" := DevNode (80, 1) ]}
                        {[ (80, 1) := opfs_stream_ops MemHandle ]}) /\
  exists e t',
    registerOpfsFile RefFS (VString "/x") MemHandle w1 =
      caught (ErrnoError e) 2 t' w1 /\
    nodes t' !! "/x" = Some (DevNode (80, 1)).
Proof.
  intros w1.
  assert (HFS : FS w1 =
    Some (mkMemFS {[ "/" := DirNode; "/x" := DevNode (80, 1) ]}
                  {[ (80, 1) := opfs_stream_ops MemHandle ]})).
  { subst w1. vm_compute. reflexivity. }
  split; [exact HFS|].
  destruct (duplicate_mount_returns_false "/x" (DevNode (80, 1)) MemHandle w1 _
              HFS) as (e & t' & Hrun & Hbound & _).
  { vm_compute. reflexivity. }
  exists e, t'. split; [exact Hrun | exact Hbound].
Defined.

(** ** C5: the parent directory *)

(** C5, as stated, fails twice.  An absent parent is not always created:
    for "/a/b/c" on a tree that holds only the root, [FS.mkdir("/a/b")]
    fails, the failure is discarded, and "/a/b" is still absent when the
    call returns [false].  And when a file occupies the parent path, the
    call raises no error: it returns [false] like any other failure. *)
Lemma parent_directory_counterexample :
  let '(r, w) :=
    registerOpfsFile RefFS (VString "/a/b/c") MemHandle fresh_world in
  let w_file : World (MemFS MemStore) :=
    mkWorld None (Some (mkMemFS {[ "/" := DirNode; "/f" := FileNode ]} ∅)) [] in
  let r' := fst (registerOpfsFile RefFS (VString "/f/dev") MemHandle w_file) in
  (r = Normal false /\
   exists t, FS w = Some t /\ nodes t !! "/a/b" = None) /\
  (~ raises r' /\ r' = r).
Proof.
  vm_compute. split; [split; [reflexivity | eexists; split; reflexivity]|].
  split; [|reflexivity]. intros [e He]. discriminate He.
Qed.

(** C5, amended. The directory step is one call [FS.mkdir(dirPath)] whose
    failure, of any kind, is discarded.  On the reference file system and
    for a free path: if the parent is a directory the call proceeds (the
    tree gains the device node only, nothing is logged); if the parent is
    absent and its own parent is a directory, the parent is created and
    the call proceeds; if the parent is absent and cannot be created, or
    is occupied by something that is not a directory, nothing is created
    and the call returns [false], having logged the errno error of
    [FS.mkdev].  In every case the call has consumed minor number [m] and
    registered a device under it. *)
Theorem parent_directory_step {S} (p : string)
    (accessHandle : SyncAccessHandle S) (w : World (MemFS S)) (t : MemFS S) :
  FS w = Some t ->
  nodes t !! p = None ->
  let m := next_minor w in
  let devs := <[(80, m) := opfs_stream_ops accessHandle]> (devices t) in
  let run := registerOpfsFile RefFS (VString p) accessHandle w in
  (nodes t !! dirPath_of p = Some DirNode ->
   run = (Normal true,
          mkWorld (Some m)
            (Some (mkMemFS (<[p := DevNode (80, m)]> (nodes t)) devs))
            (console w))) /\
  (nodes t !! dirPath_of p = None ->
   nodes t !! dirPath_of (dirPath_of p) = Some DirNode ->
   run = (Normal true,
          mkWorld (Some m)
            (Some (mkMemFS (<[p := DevNode (80, m)]>
                              (<[dirPath_of p := DirNode]> (nodes t))) devs))
            (console w))) /\
  (nodes t !! dirPath_of p = None ->
   nodes t !! dirPath_of (dirPath_of p) <> Some DirNode ->
   run = caught (ErrnoError ENOENT) m (mkMemFS (nodes t) devs) w) /\
  (forall n, nodes t !! dirPath_of p = Some n -> n <> DirNode ->
   run = caught (ErrnoError ENOTDIR) m (mkMemFS (nodes t) devs) w).
Proof.
  intros HFS Hp m devs run. subst run.
  rewrite (registerOpfsFile_RefFS p accessHandle w t HFS). cbv zeta.
  fold m. fold devs. set (t2 := mkMemFS (nodes t) devs).
  repeat split.
  - intros Hdir.
    assert (Ht3 : snd (memfs_mknod (dirPath_of p) DirNode t2) = t2).
    { unfold memfs_mknod.
      destruct (nodes t2 !! dirPath_of (dirPath_of p)) as [[]|]; try done.
      subst t2. simpl. by rewrite Hdir. }
    rewrite Ht3, mknod_fresh by assumption. reflexivity.
  - intros Hdir Hup.
    assert (Hne : dirPath_of p <> p).
    { intros Heq. rewrite Heq in Hup. congruence. }
    rewrite (mknod_fresh (dirPath_of p) DirNode t2) by assumption. cbn [snd].
    rewrite mknod_fresh; cbn [nodes].
    + reflexivity.
    + apply lookup_insert_eq.
    + rewrite lookup_insert_ne; assumption.
  - intros Hdir Hup.
    assert (Ht3 : snd (memfs_mknod (dirPath_of p) DirNode t2) = t2).
    { unfold memfs_mknod. subst t2. cbn [nodes].
      destruct (nodes t !! dirPath_of (dirPath_of p)) as [[]|]; done. }
    rewrite Ht3, mknod_no_parent by assumption. reflexivity.
  - intros n Hdir Hn.
    assert (Ht3 : snd (memfs_mknod (dirPath_of p) DirNode t2) = t2).
    { unfold memfs_mknod. subst t2. cbn [nodes]. rewrite Hdir.
      destruct (nodes t !! dirPath_of (dirPath_of p)) as [[]|]; done. }
    rewrite Ht3, (mknod_parent_not_dir p _ n) by assumption. reflexivity.
Qed.

(** Mounting "/media/in.dat" on a tree that holds only the root creates
    "/media" and binds the device; mounting "/in.dat" there finds the
    root in place and binds the device. *)
Lemma parent_directory_step_witness :
  FS (fresh_world (S := MemStore)) = Some memfs_root /\
  nodes (memfs_root (S := MemStore)) !! "/media/in.dat" = None /\
  registerOpfsFile RefFS (VString "/media/in.dat") MemHandle fresh_world =
    (Normal true,
     mkWorld (Some 1)
       (Some (mkMemFS
                (<["/media/in.dat" := DevNode (80, 1)]>
                   (<["/media" := DirNode]> {[ "/" := DirNode ]}))
                (<[(80, 1) := opfs_stream_ops MemHandle]> ∅)))
       []).
Proof.
  assert (HFS : FS (fresh_world (S := MemStore)) = Some memfs_root)
    by reflexivity.
  assert (Hfree : nodes (memfs_root (S := MemStore)) !! "/media/in.dat" = None)
    by (vm_compute; reflexivity).
  split; [exact HFS|]. split; [exact Hfree|].
  apply (parent_directory_step "/media/in.dat" MemHandle fresh_world memfs_root
           HFS Hfree).
  - vm_compute; reflexivity.
  - vm_compute; reflexivity.
Defined.

(** ** C3: a sequence of mounts *)

Section Sequences.
Context {S : Type}.
Implicit Types (t : MemFS S) (w : World (MemFS S)) (p q : string).
Implicit Types (calls : list (string * SyncAccessHandle S)).

Lemma next_minor_after (c : Z) (o : option (MemFS S)) (log : list LogLine) :
  next_minor (mkWorld (Some c) o log) = c + 1.
Proof.
  unfold next_minor. simpl. destruct (Z.eqb_spec c 0); [subst|]; reflexivity.
Qed.

(** Every call made while [FS] is defined takes the next minor number,
    whether it succeeds or not. *)
Lemma registerOpfsFile_counter {T D} (fs : HostFS T D S) path
    (accessHandle : SyncAccessHandle S) (v : World T) (t : T) :
  FS v = Some t ->
  opfs_device_minor (snd (registerOpfsFile fs path accessHandle v))
  = Some (next_minor v).
Proof.
  intros HFS. rewrite (registerOpfsFile_run fs path accessHandle v t HFS).
  cbv zeta. unfold caught.
  destruct (FS_makedev fs 80 (next_minor v) t) as [[device|e] t1]; [|done].
  destruct (FS_registerDevice fs device _ t1) as [[[]|e] t2]; [|done].
  destruct path as [|n|p]; try done.
  by destruct (FS_mkdev fs (VString p) device _) as [[[]|e] t4].
Qed.

(** Mounting a list of distinct free paths whose parents are directories:
    every call returns [true]; the k-th (from 0) binds its path to minor
    [next_minor w + k] and registers its callbacks under that identity;
    other paths and identities are left alone. *)
Lemma register_all_RefFS calls : forall w t,
  FS w = Some t ->
  NoDup (map fst calls) ->
  (forall p, p ∈ map fst calls ->
     nodes t !! dirPath_of p = Some DirNode /\ nodes t !! p = None) ->
  exists c' t',
    register_all RefFS (string_calls calls) w =
      (replicate (List.length calls) (Normal true),
       mkWorld c' (Some t') (console w)) /\
    c' = (if calls is [] then opfs_device_minor w
          else Some (next_minor w + Z.of_nat (List.length calls) - 1)) /\
    (forall k p h, calls !! k = Some (p, h) ->
       nodes t' !! p = Some (DevNode (80, next_minor w + Z.of_nat k)) /\
       devices t' !! (80, next_minor w + Z.of_nat k)
         = Some (opfs_stream_ops h)) /\
    (forall q, q ∉ map fst calls -> nodes t' !! q = nodes t !! q) /\
    (forall ma mi,
       (ma <> 80 \/ mi < next_minor w) ->
       devices t' !! (ma, mi) = devices t !! (ma, mi)).
Proof.
  induction calls as [|[p h] calls IH]; intros w t HFS Hnd Hfree.
  - exists (opfs_device_minor w), t. destruct w as [c o log].
    simpl in HFS. subst o. repeat split; try done.
  - cbn [map fst] in Hnd, Hfree. apply NoDup_cons in Hnd as [Hp Hnd].
    destruct (Hfree p) as [Hdir Hnone]; [left|].
    cbn [string_calls map register_all fst snd]. fold (string_calls calls).
    rewrite (registerOpfsFile_RefFS p h w t HFS). cbv zeta.
    set (m := next_minor w).
    set (t2 := mkMemFS (nodes t) (<[(80, m) := opfs_stream_ops h]> (devices t))).
    assert (Ht3 : snd (memfs_mknod (dirPath_of p) DirNode t2) = t2).
    { unfold memfs_mknod.
      destruct (nodes t2 !! dirPath_of (dirPath_of p)) as [[]|]; try done.
      subst t2. simpl. by rewrite Hdir. }
    rewrite Ht3, mknod_fresh by assumption.
    set (t1 := mkMemFS (<[p := DevNode (80, m)]> (nodes t2)) (devices t2)).
    set (w1 := mkWorld (Some m) (Some t1) (console w)).
    destruct (IH w1 t1) as (c' & t' & Hrun & Hc' & Hbind & Hframe & Hdevs).
    { reflexivity. }
    { exact Hnd. }
    { intros q Hq. destruct (Hfree q) as [Hqdir Hqnone]; [by right|].
      subst t1 t2. cbn [nodes]. split.
      - rewrite lookup_insert_ne; [done | congruence].
      - rewrite lookup_insert_ne; [done|]. intros ->. contradiction. }
    assert (Hm1 : next_minor w1 = m + 1) by apply next_minor_after.
    rewrite Hrun. exists c', t'. split; [reflexivity|]. split.
    { rewrite Hc', Hm1. destruct calls as [|c0 calls']; cbn [List.length].
      - subst w1. simpl. f_equal. lia.
      - f_equal. lia. }
    split; [|split].
    + intros [|k] q h' Hk; simpl in Hk.
      * injection Hk as <- <-. rewrite Z.add_0_r. split.
        -- rewrite (Hframe p Hp). subst t1. cbn [nodes].
           apply lookup_insert_eq.
        -- rewrite Hdevs by (right; lia). subst t1 t2. cbn [devices].
           apply lookup_insert_eq.
      * destruct (Hbind k q h' Hk) as [Hn Hd].
        rewrite Hm1 in Hn, Hd.
        replace (m + Z.of_nat (Datatypes.S k)) with (m + 1 + Z.of_nat k) by lia.
        split; assumption.
    + intros q Hq. cbn [map fst] in Hq.
      apply not_elem_of_cons in Hq as [Hqp Hq].
      rewrite (Hframe q Hq). subst t1 t2. cbn [nodes].
      by rewrite lookup_insert_ne.
    + intros ma mi Hlt. rewrite Hdevs by (rewrite Hm1; lia).
      subst t1 t2. cbn [devices]. rewrite lookup_insert_ne; [done|].
      intros [= <- <-]. lia.
Qed.
End Sequences.


Section MountableSequences.
Context {S : Type}.
Implicit Types (t : MemFS S) (w : World (MemFS S)) (p q : string).
Implicit Types (tree : gmap string Node).
Implicit Types (calls : list (string * SyncAccessHandle S)).









End MountableSequences.



(** * Further properties *)

(** ** The directory part of a path (lines 87-89) *)

Section PathFacts.
Variable sep : ascii.

Lemma str_split_nonempty (s : string) : str_split sep s <> [].
Proof.
  destruct s as [|c rest]; simpl; [discriminate|].
  destruct (Ascii.eqb c sep); [discriminate|].
  destruct (str_split sep rest); discriminate.
Qed.

Lemma str_split_free (s : string) :
  free_of sep s = true -> str_split sep s = [s].
Proof.
  induction s as [|c rest IH]; simpl; [reflexivity|].
  destruct (Ascii.eqb c sep); simpl; [discriminate|].
  intros Hrest. rewrite (IH Hrest). reflexivity.
Qed.

(** Splitting distributes over a separator in the middle. *)
Lemma str_split_app (d rest : string) :
  str_split sep (d +:+ String sep rest) = str_split sep d ++ str_split sep rest.
Proof.
  induction d as [|c d' IH]; simpl.
  - rewrite Ascii.eqb_refl. reflexivity.
  - destruct (Ascii.eqb c sep); [by rewrite IH|].
    rewrite IH. pose proof (str_split_nonempty d') as Hne.
    destruct (str_split sep d') as [|piece pieces]; [done|]. reflexivity.
Qed.

(** Joining the pieces with the separator gives the string back. *)
Lemma arr_join_str_split (s : string) :
  arr_join (String sep EmptyString) (str_split sep s) = s.
Proof.
  induction s as [|c rest IH]; [reflexivity|].
  pose proof (str_split_nonempty rest) as Hne. simpl.
  destruct (Ascii.eqb_spec c sep) as [->|Hc].
  - destruct (str_split sep rest) as [|piece pieces] eqn:Hsplit; [done|].
    cbn [arr_join]. cbn [arr_join] in IH. rewrite IH. reflexivity.
  - destruct (str_split sep rest) as [|piece pieces] eqn:Hsplit; [done|].
    cbn [arr_join] in IH |- *. destruct pieces as [|piece' pieces'].
    + by rewrite IH.
    + simpl. by rewrite <- IH.
Qed.
End PathFacts.

(** X1. For a path [d/name] whose last component [name] holds no slash,
    the popped file name is [name] and the directory handed to [FS.mkdir]
    is [d], or "/" when [d] is empty (a path directly under the root); a
    path with no slash at all also gets "/".  The directory is never the
    empty string. *)
Theorem dirPath_of_parent (d name : string) :
  free_of "/" name = true ->
  fst (arr_pop (str_split "/" (d +:+ "/" +:+ name))) = Some name /\
  dirPath_of (d +:+ "/" +:+ name) = str_or d "/" /\
  dirPath_of name = "/" /\
  dirPath_of (d +:+ "/" +:+ name) <> EmptyString.
Proof.
  intros Hname.
  assert (Hsplit : str_split "/" (d +:+ "/" +:+ name) = str_split "/" d ++ [name]).
  { change (d +:+ "/" +:+ name) with (d +:+ String "/" name).
    by rewrite str_split_app, (str_split_free "/" name Hname). }
  assert (Hdir : dirPath_of (d +:+ "/" +:+ name) = str_or d "/").
  { unfold dirPath_of, arr_pop. rewrite Hsplit, removelast_last.
    by rewrite (arr_join_str_split "/" d). }
  split; [|split; [exact Hdir|split]].
  - unfold arr_pop. cbn [fst]. rewrite Hsplit. apply last_snoc.
  - unfold dirPath_of, arr_pop. by rewrite (str_split_free "/" name Hname).
  - rewrite Hdir. by destruct d.
Qed.

Lemma dirPath_of_parent_witness :
  free_of "/" "in.dat" = true /\
  dirPath_of ("/media/raw" +:+ "/" +:+ "in.dat") = "/media/raw" /\
  dirPath_of (EmptyString +:+ "/" +:+ "in.dat") = "/".
Proof.
  split; [reflexivity|]. split.
  - apply (dirPath_of_parent "/media/raw" "in.dat"). reflexivity.
  - apply (dirPath_of_parent EmptyString "in.dat"). reflexivity.
Defined.

(** ** Edge behaviour of the stream operations *)

(** X2. A [whence] other than 0, 1 and 2 is not rejected: [llseek] then
    returns the stream's current position, without calling the handle and
    without changing anything. *)
Theorem llseek_unknown_whence_is_identity {S} (accessHandle : SyncAccessHandle S)
    (offset whence : Z) (d : DeviceState S) :
  whence <> 0 -> whence <> 1 -> whence <> 2 ->
  ops_llseek (opfs_stream_ops accessHandle) offset whence d =
  (Normal (position (stream d)), d).
Proof.
  intros H0 H1 H2. cbn [opfs_stream_ops ops_llseek].
  by apply llseek_other.
Qed.

Lemma llseek_unknown_whence_is_identity_witness :
  (3 <> 0 /\ 3 <> 1 /\ 3 <> 2) /\
  ops_llseek (opfs_stream_ops MemHandle) 100 3 (dev_at 5) = (Normal 5, dev_at 5).
Proof.
  assert (H0 : 3 <> 0) by discriminate.
  assert (H1 : 3 <> 1) by discriminate.
  assert (H2 : 3 <> 2) by discriminate.
  split; [auto|].
  exact (llseek_unknown_whence_is_identity MemHandle 100 3 (dev_at 5) H0 H1 H2).
Defined.

(** X3. The handle is consulted for END only.  When its [getSize] throws,
    [llseek] from END throws the same error and leaves the stream as it
    was; seeks from START and CURRENT still succeed on the same handle. *)
Theorem llseek_END_surfaces_getSize_error {S} (accessHandle : SyncAccessHandle S)
    (offset : Z) (d : DeviceState S) (e : JSError) (i' : IO S) :
  ah_getSize accessHandle (io d) = (Throw e, i') ->
  let ops := opfs_stream_ops accessHandle in
  ops_llseek ops offset (whence_of END) d = (Throw e, mkDev (stream d) i') /\
  ops_llseek ops offset (whence_of START) d = (Normal offset, d) /\
  ops_llseek ops offset (whence_of CURRENT) d =
    (Normal (position (stream d) + offset), d).
Proof.
  intros Hsize ops. subst ops. cbn [opfs_stream_ops ops_llseek whence_of].
  split; [|split].
  - by rewrite llseek_END, Hsize.
  - apply llseek_START.
  - apply llseek_CURRENT.
Qed.

Lemma llseek_END_surfaces_getSize_error_witness :
  let d := mkDev (mkStream 3 5) (mkIO heap4 (mkStore [] true)) in
  ah_getSize MemHandle (io d) = (Throw InvalidStateError, io d) /\
  ops_llseek (opfs_stream_ops MemHandle) 0 (whence_of END) d
    = (Throw InvalidStateError, d).
Proof.
  intros d.
  assert (Hsize : ah_getSize MemHandle (io d) = (Throw InvalidStateError, io d))
    by reflexivity.
  split; [exact Hsize|].
  apply (llseek_END_surfaces_getSize_error MemHandle 0 d _ _ Hsize).
Defined.

(** X4. Whatever [offset] and [length] are (negative, or past the end of
    [buffer]), the view [read] and [write] hand to the handle lies inside
    [buffer]; for a non-negative [length] it is at most [length] bytes
    long, so a handle that obeys the bounded-read contract never makes
    [read] return more than [length]. *)
Theorem read_write_stay_in_buffer {S} (accessHandle : SyncAccessHandle S)
    (buffer : Uint8Array) (offset length pos : Z) (s : OpenStream) (i : IO S) :
  0 <= byteLength buffer ->
  let ops := opfs_stream_ops accessHandle in
  exists view,
    view_within view buffer /\
    (0 <= length -> byteLength view <= length) /\
    ops_read ops buffer offset length pos (mkDev s i) =
      (let '(r, i') := ah_read accessHandle view pos i in (r, mkDev s i')) /\
    ops_write ops buffer offset length pos (mkDev s i) =
      (let '(r, i') := ah_write accessHandle view pos i in (r, mkDev s i')) /\
    (bounded_read accessHandle -> 0 <= length ->
     forall n d', ops_read ops buffer offset length pos (mkDev s i) = (Normal n, d') ->
                  0 <= n <= length).
Proof.
  intros Hlen ops. subst ops. cbn [opfs_stream_ops ops_read ops_write].
  exists (subarray buffer offset (offset + length)).
  assert (Hwithin : view_within (subarray buffer offset (offset + length)) buffer).
  { unfold view_within, subarray, relative_index; simpl.
    destruct (Z.ltb_spec offset 0), (Z.ltb_spec (offset + length) 0); lia. }
  assert (Hshort : 0 <= length ->
            byteLength (subarray buffer offset (offset + length)) <= length).
  { intros Hl. unfold subarray, relative_index; simpl.
    destruct (Z.ltb_spec offset 0), (Z.ltb_spec (offset + length) 0); lia. }
  split; [exact Hwithin|]. split; [exact Hshort|].
  split; [apply read_run|]. split; [apply write_run|].
  intros Hbounded Hl n d'. rewrite read_run.
  destruct (ah_read accessHandle _ pos i) as [r i'] eqn:Hread.
  intros [= -> _].
  destruct Hwithin as (_ & _ & Hpos).
  pose proof (Hbounded _ pos i n i' Hpos Hread) as Hn.
  specialize (Hshort Hl). lia.
Qed.

(** A read of 9 bytes at offset 3 of a 4-byte buffer reaches the handle as
    a 1-byte view, the last byte of the buffer. *)
Lemma read_write_stay_in_buffer_witness :
  0 <= byteLength (mkView 16 4) /\
  exists view,
    view_within view (mkView 16 4) /\
    ops_read (opfs_stream_ops MemHandle) (mkView 16 4) 3 9 0 (dev_at 0) =
      (let '(r, i') := ah_read MemHandle view 0 (io (dev_at 0)) in
       (r, mkDev (stream (dev_at 0)) i')).
Proof.
  assert (Hlen : 0 <= byteLength (mkView 16 4)) by (simpl; lia).
  split; [exact Hlen|].
  destruct (read_write_stay_in_buffer MemHandle (mkView 16 4) 3 9 0
              (mkStream 3 0) (mkIO heap4 store10) Hlen)
    as (view & Hwithin & _ & Hread & _).
  exists view. split; [exact Hwithin | exact Hread].
Defined.

(** X5. [read] and [write] have no error handling of their own: an error
    thrown by the handle reaches the caller unchanged, with the state the
    handle left; and, whether the handle returns or throws, the stream
    object is the same after the call as before. *)
Theorem read_write_surface_errors {S} (accessHandle : SyncAccessHandle S)
    (buffer : Uint8Array) (offset length pos : Z) (d : DeviceState S) :
  let ops := opfs_stream_ops accessHandle in
  let view := subarray buffer offset (offset + length) in
  (forall e i', ah_read accessHandle view pos (io d) = (Throw e, i') ->
     ops_read ops buffer offset length pos d = (Throw e, mkDev (stream d) i')) /\
  (forall e i', ah_write accessHandle view pos (io d) = (Throw e, i') ->
     ops_write ops buffer offset length pos d = (Throw e, mkDev (stream d) i')) /\
  stream (snd (ops_read ops buffer offset length pos d)) = stream d /\
  stream (snd (ops_write ops buffer offset length pos d)) = stream d.
Proof.
  intros ops view. subst ops view. cbn [opfs_stream_ops ops_read ops_write].
  destruct d as [s i]. rewrite read_run, write_run. cbn [stream io].
  split; [|split; [|split]].
  - intros e i' Hread. by rewrite Hread.
  - intros e i' Hwrite. by rewrite Hwrite.
  - by destruct (ah_read accessHandle _ pos i) as [r i'].
  - by destruct (ah_write accessHandle _ pos i) as [r i'].
Qed.

Lemma read_write_surface_errors_witness :
  let d := mkDev (mkStream 3 5) (mkIO heap4 (mkStore [x0a] true)) in
  ah_read MemHandle (subarray (mkView 0 4) 0 (0 + 4)) 0 (io d)
    = (Throw InvalidStateError, io d) /\
  ops_read (opfs_stream_ops MemHandle) (mkView 0 4) 0 4 0 d
    = (Throw InvalidStateError, d).
Proof.
  intros d.
  assert (Hread : ah_read MemHandle (subarray (mkView 0 4) 0 (0 + 4)) 0 (io d)
                  = (Throw InvalidStateError, io d)) by reflexivity.
  split; [exact Hread|].
  destruct (read_write_surface_errors MemHandle (mkView 0 4) 0 4 0 d)
    as (Hr & _).
  exact (Hr _ _ Hread).
Defined.

(** ** Every call of [registerOpfsFile], on any file system *)

Section AnyFileSystem.
Context {T D S : Type}.
Variable fs : HostFS T D S.

Lemma next_minor_Some (w : World T) (c : Z) :
  opfs_device_minor w = Some c -> next_minor w = c + 1.
Proof.
  intros Hc. unfold next_minor. rewrite Hc.
  destruct (Z.eqb_spec c 0); [subst|]; reflexivity.
Qed.

(** The shape of every run with [FS] defined: a boolean, the counter moved
    to [next_minor w], a file system still there, and the console grown by
    nothing (on [true]) or by one failure line (on [false]). *)
Lemma registerOpfsFile_shape path (accessHandle : SyncAccessHandle S)
    (w : World T) (t : T) :
  FS w = Some t ->
  exists b t' l,
    registerOpfsFile fs path accessHandle w =
      (Normal b, mkWorld (Some (next_minor w)) (Some t') (console w ++ l)) /\
    (b = true /\ l = [] \/ b = false /\ exists e, l = [failure_log e]).
Proof.
  intros HFS. rewrite (registerOpfsFile_run fs path accessHandle w t HFS).
  cbv zeta. unfold caught.
  assert (Hnil : console w = console w ++ []) by (by rewrite app_nil_r).
  destruct (FS_makedev fs 80 (next_minor w) t) as [[device|e] t1];
    [|exists false, t1, [failure_log e]; eauto].
  destruct (FS_registerDevice fs device _ t1) as [[[]|e] t2];
    [|exists false, t2, [failure_log e]; eauto].
  destruct path as [|n|p].
  1,2: eexists false, t2, [failure_log _]; eauto.
  destruct (FS_mkdev fs (VString p) device _) as [[[]|e] t4].
  - exists true, t4, []. rewrite <- Hnil. auto.
  - exists false, t4, [failure_log e]. eauto.
Qed.
End AnyFileSystem.

(** X6. On any file system and for any paths and handles, a sequence of N
    calls started with [FS] defined yields N booleans (no call throws),
    leaves [FS] defined, and moves the minor counter forward by exactly N:
    every call takes a fresh minor number, the failing ones included. *)
Theorem register_all_advances_counter {T D S} (fs : HostFS T D S)
    (calls : list (JSValue * SyncAccessHandle S)) (w : World T) (t : T) :
  FS w = Some t ->
  exists rs w' t',
    register_all fs calls w = (rs, w') /\
    List.length rs = List.length calls /\
    Forall (fun r => exists b : bool, r = Normal b) rs /\
    FS w' = Some t' /\
    (calls <> [] ->
     opfs_device_minor w' =
       Some (next_minor w + Z.of_nat (List.length calls) - 1)).
Proof.
  revert w t. induction calls as [|[path h] calls IH]; intros w t HFS.
  - exists [], w, t. repeat split; done.
  - cbn [register_all].
    destruct (registerOpfsFile_shape fs path h w t HFS)
      as (b & t1 & l & Hrun & _).
    rewrite Hrun.
    set (w1 := mkWorld (Some (next_minor w)) (Some t1) (console w ++ l)).
    destruct (IH w1 t1 eq_refl) as (rs & w' & t' & Hall & Hlen & Hbool & HFS' & Hc).
    rewrite Hall. exists (Normal b :: rs), w', t'.
    split; [reflexivity|]. split; [simpl; by rewrite Hlen|].
    split; [constructor; eauto|]. split; [exact HFS'|].
    intros _. destruct calls as [|c0 calls'].
    + simpl in Hall. injection Hall as <- <-. simpl. f_equal. lia.
    + rewrite Hc by discriminate.
      rewrite (next_minor_Some w1 (next_minor w) eq_refl).
      f_equal. cbn [List.length]. lia.
Qed.

(** Three calls on a fresh runtime, one of them failing: the counter ends
    at 3. *)
Lemma register_all_advances_counter_witness :
  let calls := [(VString "/a", MemHandle); (VString "/a", MemHandle);
                (VNumber 7, MemHandle)] in
  FS (fresh_world (S := MemStore)) = Some memfs_root /\
  exists rs w',
    register_all RefFS calls fresh_world = (rs, w') /\
    opfs_device_minor w' = Some 3.
Proof.
  intros calls.
  assert (HFS : FS (fresh_world (S := MemStore)) = Some memfs_root)
    by reflexivity.
  split; [exact HFS|].
  destruct (register_all_advances_counter RefFS calls fresh_world memfs_root HFS)
    as (rs & w' & t' & Hall & _ & _ & _ & Hc).
  exists rs, w'. split; [exact Hall|]. apply Hc. discriminate.
Defined.

(** X7. A call writes to the error console exactly when it returns
    [false], and then exactly one line; lines logged earlier are kept.  A
    successful call logs nothing. *)
Theorem registerOpfsFile_logs_once {T D S} (fs : HostFS T D S) (path : JSValue)
    (accessHandle : SyncAccessHandle S) (w : World T) :
  exists (b : bool) (w' : World T),
    registerOpfsFile fs path accessHandle w = (Normal b, w') /\
    (b = true -> console w' = console w) /\
    (b = false -> exists line, console w' = console w ++ [line]).
Proof.
  destruct (FS w) as [t|] eqn:HFS.
  - destruct (registerOpfsFile_shape fs path accessHandle w t HFS)
      as (b & t' & l & Hrun & [[-> ->] | [-> [e ->]]]);
      rewrite Hrun; eexists _, _; (split; [reflexivity|]); cbn [console].
    + split; [intros _; apply app_nil_r | discriminate].
    + split; [discriminate | eauto].
  - rewrite (registerOpfsFile_no_FS fs path accessHandle w HFS).
    eexists _, _. split; [reflexivity|]. cbn [console].
    split; [discriminate | eauto].
Qed.

(** X8. While [FS] is undefined, every call of a sequence returns [false],
    no minor number is consumed, and each call logs the line
    "FS not initialized.". *)
Theorem register_all_without_FS {T D S} (fs : HostFS T D S)
    (calls : list (JSValue * SyncAccessHandle S)) (w : World T) :
  FS w = None ->
  register_all fs calls w =
  (replicate (List.length calls) (Normal false),
   mkWorld (opfs_device_minor w) None
     (console w ++
      replicate (List.length calls) (mkLog "FS not initialized." None))).
Proof.
  revert w. induction calls as [|[path h] calls IH]; intros w HFS.
  - destruct w as [c o log]. simpl in HFS. subst o. simpl.
    by rewrite app_nil_r.
  - cbn [register_all].
    rewrite (registerOpfsFile_no_FS fs path h w HFS).
    rewrite IH by reflexivity. cbn [opfs_device_minor console List.length replicate].
    by rewrite <- app_assoc.
Qed.

Lemma register_all_without_FS_witness :
  let w : World (MemFS MemStore) := mkWorld (Some 4) None [] in
  FS w = None /\
  register_all RefFS [(VString "/a", MemHandle); (VString "/b", MemHandle)] w =
  ([Normal false; Normal false],
   mkWorld (Some 4) None
     [mkLog "FS not initialized." None; mkLog "FS not initialized." None]).
Proof.
  intros w. split; [reflexivity|].
  apply (register_all_without_FS RefFS
           [(VString "/a", MemHandle); (VString "/b", MemHandle)] w).
  reflexivity.
Defined.

(** X9. A [path] that is not a string: once the device number is made and
    the device registered, [path.split] throws a type error, which is
    caught.  The call returns [false] with that error logged; the minor
    number is spent, the file system is left exactly as [registerDevice]
    left it ([FS.mkdir] and [FS.mkdev] are never reached). *)
Theorem non_string_path_fails {T D S} (fs : HostFS T D S) (path : JSValue)
    (accessHandle : SyncAccessHandle S) (w : World T) (t t1 t2 : T) (device : D) :
  FS w = Some t ->
  (forall p, path <> VString p) ->
  FS_makedev fs 80 (next_minor w) t = (Normal device, t1) ->
  FS_registerDevice fs device (opfs_stream_ops accessHandle) t1 = (Normal tt, t2) ->
  exists msg,
    registerOpfsFile fs path accessHandle w =
    caught (TypeError msg) (next_minor w) t2 w.
Proof.
  intros HFS Hpath Hmk Hreg.
  rewrite (registerOpfsFile_run fs path accessHandle w t HFS). cbv zeta.
  rewrite Hmk, Hreg. destruct path as [|n|p]; eauto.
  by destruct (Hpath p).
Qed.

Lemma non_string_path_fails_witness :
  let t1 : MemFS MemStore :=
    mkMemFS {[ "/" := DirNode ]} {[ (80, 1) := opfs_stream_ops MemHandle ]} in
  FS (fresh_world (S := MemStore)) = Some memfs_root /\
  (forall p, VNumber 7 <> VString p) /\
  exists msg,
    registerOpfsFile RefFS (VNumber 7) MemHandle fresh_world =
    caught (TypeError msg) 1 t1 fresh_world.
Proof.
  intros t1.
  assert (HFS : FS (fresh_world (S := MemStore)) = Some memfs_root)
    by reflexivity.
  assert (Hpath : forall p, VNumber 7 <> VString p) by discriminate.
  split; [exact HFS|]. split; [exact Hpath|].
  apply (non_string_path_fails RefFS (VNumber 7) MemHandle fresh_world
           memfs_root memfs_root t1 (80, 1) HFS Hpath).
  - reflexivity.
  - vm_compute. reflexivity.
Defined.

(** ** Mounts on the reference file system: what is kept *)

Section RefFSEffects.
Context {S : Type}.
Implicit Types (t : MemFS S) (w : World (MemFS S)) (p q : string).

(** Creating an entry either throws and changes nothing, or adds the one
    entry at a path that was free. *)
Lemma mknod_result q (x : Node) t :
  (exists e, memfs_mknod q x t = (Throw e, t)) \/
  (nodes t !! q = None /\
   memfs_mknod q x t = (Normal tt, mkMemFS (<[q := x]> (nodes t)) (devices t))).
Proof.
  unfold memfs_mknod.
  destruct (nodes t !! dirPath_of q) as [[]|]; eauto.
  destruct (nodes t !! q); eauto.
Qed.

(** What any call does to the reference file system: it registers the
    callbacks under (80, m), keeps every entry of the tree, and adds at most
    a directory and the device node for (80, m). *)
Lemma registerOpfsFile_RefFS_effects path (accessHandle : SyncAccessHandle S) w t :
  FS w = Some t ->
  let m := next_minor w in
  exists b t' l,
    registerOpfsFile RefFS path accessHandle w =
      (Normal b, mkWorld (Some m) (Some t') (console w ++ l)) /\
    devices t' = <[(80, m) := opfs_stream_ops accessHandle]> (devices t) /\
    (forall p n, nodes t !! p = Some n -> nodes t' !! p = Some n) /\
    (forall p n, nodes t' !! p = Some n ->
       nodes t !! p = Some n \/ n = DirNode \/ n = DevNode (80, m)) /\
    (b = true -> l = [] /\
                 exists p, path = VString p /\
                           nodes t' !! p = Some (DevNode (80, m))).
Proof.
  intros HFS m.
  set (t2 := mkMemFS (nodes t)
               (<[(80, m) := opfs_stream_ops accessHandle]> (devices t))).
  destruct path as [|k|p].
  1,2: rewrite (registerOpfsFile_run RefFS _ accessHandle w t HFS);
       eexists false, t2, [_]; (split; [reflexivity|]);
       (split; [reflexivity|]); (split; [auto|]); (split; [auto | discriminate]).
  rewrite (registerOpfsFile_RefFS p accessHandle w t HFS). cbv zeta.
  fold m. fold t2.
  set (t3 := snd (memfs_mknod (dirPath_of p) DirNode t2)).
  assert (Hd3 : devices t3 = devices t2) by apply mknod_devices.
  assert (Hkeep3 : forall q n, nodes t2 !! q = Some n -> nodes t3 !! q = Some n).
  { intros q n Hq. by apply mknod_keeps_bound. }
  assert (Hnew3 : forall q n, nodes t3 !! q = Some n ->
                    nodes t2 !! q = Some n \/ n = DirNode).
  { intros q n. subst t3.
    destruct (mknod_result (dirPath_of p) DirNode t2) as [[e ->] | [Hfree ->]];
      cbn [snd nodes]; [auto|].
    destruct (decide (dirPath_of p = q)) as [->|Hne].
    - rewrite lookup_insert_eq. intros [= <-]. auto.
    - rewrite lookup_insert_ne by done. auto. }
  destruct (mknod_result p (DevNode (80, m)) t3) as [[e ->] | [Hfree ->]].
  - exists false, t3, [failure_log e]. split; [reflexivity|].
    split; [by rewrite Hd3|]. split; [exact Hkeep3|]. split; [|discriminate].
    intros q n Hq. destruct (Hnew3 q n Hq); auto.
  - eexists true, _, []. split; [by rewrite app_nil_r|].
    cbn [nodes devices]. split; [by rewrite Hd3|]. split; [|split].
    + intros q n Hq. specialize (Hkeep3 q n Hq).
      rewrite lookup_insert_ne; [done | congruence].
    + intros q n. destruct (decide (p = q)) as [->|Hne].
      * rewrite lookup_insert_eq. intros [= <-]. auto.
      * rewrite lookup_insert_ne by done. intros Hq.
        destruct (Hnew3 q n Hq); auto.
    + intros _. split; [reflexivity|].
      exists p. split; [reflexivity | apply lookup_insert_eq].
Qed.

Lemma registry_ok_fresh : registry_ok (fresh_world (S := S)).
Proof.
  split; [done|]. intros t [= <-]. split.
  - intros ma mi [ops Hops]. simpl in Hops. by rewrite lookup_empty in Hops.
  - intros p d Hp. simpl in Hp.
    apply lookup_singleton_Some in Hp as [_ Hp]. discriminate.
Qed.

(** One call keeps the registry consistent. *)
Lemma registry_ok_step path (accessHandle : SyncAccessHandle S) w :
  registry_ok w ->
  registry_ok (snd (registerOpfsFile RefFS path accessHandle w)).
Proof.
  intros [Hc Hreg]. destruct (FS w) as [t|] eqn:HFS.
  - destruct (Hreg t eq_refl) as [Hdev Hnode].
    destruct (registerOpfsFile_RefFS_effects path accessHandle w t HFS)
      as (b & t' & l & Hrun & Hdevs & Hkeep & Hnew & _).
    rewrite Hrun. cbn [snd].
    assert (Hm : next_minor w = counter_value w + 1).
    { unfold next_minor, counter_value.
      destruct (opfs_device_minor w) as [c|]; [|reflexivity]. simpl.
      destruct (Z.eqb_spec c 0); [subst|]; reflexivity. }
    split; [change (0 <= next_minor w); lia|].
    intros t'' [= <-].
    change (counter_value (mkWorld (Some (next_minor w)) (Some t') (console w ++ l)))
      with (next_minor w).
    split.
    + intros ma mi. rewrite Hdevs.
      destruct (decide ((80, next_minor w) = (ma, mi))) as [[= <- <-]|Hne].
      * intros _. lia.
      * rewrite lookup_insert_ne by done. intros Hsome.
        destruct (Hdev ma mi Hsome). lia.
    + intros p d Hp. rewrite Hdevs.
      destruct (Hnew p _ Hp) as [Hold | [Hdir | [= ->]]].
      * destruct (decide ((80, next_minor w) = d)) as [<-|Hne].
        -- rewrite lookup_insert_eq. eauto.
        -- rewrite lookup_insert_ne by done. eauto.
      * discriminate.
      * rewrite lookup_insert_eq. eauto.
  - rewrite (registerOpfsFile_no_FS RefFS path accessHandle w HFS). cbn [snd].
    split; [exact Hc|]. intros t [=].
Qed.
End RefFSEffects.

(** X10. A call that returns [true] has bound [path] to a device node
    whose identity is (80, m), m being the value the counter now holds, and
    has registered under that identity the callbacks closed over the very
    handle it was given: looking the path up leads to that handle's
    operations. *)
Theorem mounted_node_dispatches {S} (path : JSValue)
    (accessHandle : SyncAccessHandle S) (w w' : World (MemFS S)) :
  registerOpfsFile RefFS path accessHandle w = (Normal true, w') ->
  exists p m t',
    path = VString p /\
    opfs_device_minor w' = Some m /\
    FS w' = Some t' /\
    nodes t' !! p = Some (DevNode (80, m)) /\
    devices t' !! (80, m) = Some (opfs_stream_ops accessHandle) /\
    console w' = console w.
Proof.
  intros Hrun. destruct (FS w) as [t|] eqn:HFS.
  - destruct (registerOpfsFile_RefFS_effects path accessHandle w t HFS)
      as (b & t' & l & Hrun' & Hdevs & _ & _ & Hbound).
    rewrite Hrun in Hrun'. injection Hrun' as <- ->.
    destruct (Hbound eq_refl) as (-> & p & -> & Hp).
    exists p, (next_minor w), t'. cbn [opfs_device_minor FS console].
    repeat split; try done.
    + rewrite Hdevs. apply lookup_insert_eq.
    + apply app_nil_r.
  - rewrite (registerOpfsFile_no_FS RefFS path accessHandle w HFS) in Hrun.
    discriminate.
Qed.

Lemma mounted_node_dispatches_witness :
  let w' := snd (registerOpfsFile RefFS (VString "/media/in.dat") MemHandle
                   fresh_world) in
  registerOpfsFile RefFS (VString "/media/in.dat") MemHandle fresh_world
    = (Normal true, w') /\
  exists t',
    FS w' = Some t' /\
    nodes t' !! "/media/in.dat" = Some (DevNode (80, 1)) /\
    devices t' !! (80, 1) = Some (opfs_stream_ops MemHandle).
Proof.
  intros w'.
  assert (Hrun : registerOpfsFile RefFS (VString "/media/in.dat") MemHandle
                   fresh_world = (Normal true, w')) by (vm_compute; reflexivity).
  split; [exact Hrun|].
  destruct (mounted_node_dispatches _ _ _ _ Hrun)
    as (p & m & t' & Hp & Hm & HFS & Hnode & Hdev & _).
  injection Hp as <-.
  assert (m = 1) as -> by (vm_compute in Hm; congruence).
  exists t'. split; [exact HFS|]. split; [exact Hnode | exact Hdev].
Defined.

(** X11. Consistency of the registry is an invariant of every sequence of
    calls, whatever the paths and handles and whether the calls succeed:
    the counter bounds all registered minors, all registered devices have
    major 80, and every device node points to a registered device.  It
    holds of a fresh runtime. *)
Theorem registry_stays_consistent {S}
    (calls : list (JSValue * SyncAccessHandle S)) (w : World (MemFS S)) :
  registry_ok w ->
  registry_ok (snd (register_all RefFS calls w)).
Proof.
  revert w. induction calls as [|[path h] calls IH]; intros w Hok; [exact Hok|].
  cbn [register_all].
  pose proof (registry_ok_step path h w Hok) as Hstep.
  destruct (registerOpfsFile RefFS path h w) as [r w1]. cbn [snd] in Hstep.
  specialize (IH w1 Hstep).
  destruct (register_all RefFS calls w1) as [rs w2]. exact IH.
Qed.

Lemma registry_stays_consistent_witness :
  let calls := [(VString "/a", MemHandle); (VString "/a", MemHandle);
                (VUndefined, MemHandle); (VString "/b/c/d", MemHandle)] in
  registry_ok (fresh_world (S := MemStore)) /\
  registry_ok (snd (register_all RefFS calls fresh_world)).
Proof.
  intros calls. split; [apply registry_ok_fresh|].
  apply (registry_stays_consistent calls fresh_world), registry_ok_fresh.
Defined.

(** X12. In a consistent registry a call never replaces what is there:
    every device registration and every entry of the tree that existed
    before the call is the same after it, whether the call succeeds or
    fails.  In particular a later mount cannot redirect an earlier one to
    another handle. *)
Theorem mounts_never_overwrite {S} (path : JSValue)
    (accessHandle : SyncAccessHandle S) (w : World (MemFS S)) (t : MemFS S) :
  registry_ok w ->
  FS w = Some t ->
  exists t',
    FS (snd (registerOpfsFile RefFS path accessHandle w)) = Some t' /\
    (forall d ops, devices t !! d = Some ops -> devices t' !! d = Some ops) /\
    (forall p n, nodes t !! p = Some n -> nodes t' !! p = Some n).
Proof.
  intros [Hc Hreg] HFS. destruct (Hreg t HFS) as [Hdev _].
  destruct (registerOpfsFile_RefFS_effects path accessHandle w t HFS)
    as (b & t' & l & Hrun & Hdevs & Hkeep & _).
  rewrite Hrun. exists t'. split; [reflexivity|]. split; [|exact Hkeep].
  intros [ma mi] ops Hd. rewrite Hdevs.
  destruct (Hdev ma mi (ex_intro _ ops Hd)) as [-> Hmi].
  assert (Hm : next_minor w = counter_value w + 1).
  { unfold next_minor, counter_value.
    destruct (opfs_device_minor w) as [c|]; [|reflexivity]. simpl.
    destruct (Z.eqb_spec c 0); [subst|]; reflexivity. }
  rewrite lookup_insert_ne; [exact Hd|]. intros [= Heq]. lia.
Qed.

(** After "/x" is mounted on [MemHandle], a second call at "/x" leaves the
    node and the callbacks of the first in place. *)
Lemma mounts_never_overwrite_witness :
  let w1 := snd (registerOpfsFile RefFS (VString "/x") MemHandle fresh_world) in
  let t1 : MemFS MemStore :=
    mkMemFS {[ "/" := DirNode; "/x" := DevNode (80, 1) ]}
            {[ (80, 1) := opfs_stream_ops MemHandle ]} in
  registry_ok w1 /\ FS w1 = Some t1 /\
  exists t',
    FS (snd (registerOpfsFile RefFS (VString "/x") MemHandle w1)) = Some t' /\
    devices t' !! (80, 1) = Some (opfs_stream_ops MemHandle) /\
    nodes t' !! "/x" = Some (DevNode (80, 1)).
Proof.
  intros w1 t1.
  assert (Hok : registry_ok w1)
    by (apply registry_ok_step, registry_ok_fresh).
  assert (HFS : FS w1 = Some t1) by (vm_compute; reflexivity).
  split; [exact Hok|]. split; [exact HFS|].
  destruct (mounts_never_overwrite (VString "/x") MemHandle w1 t1 Hok HFS)
    as (t' & HFS' & Hdevs & Hnodes).
  exists t'. split; [exact HFS'|]. split.
  - apply Hdevs. vm_compute. reflexivity.
  - apply Hnodes. vm_compute. reflexivity.
Defined.
